(** * Real-time collaboration hub and client sync agent

    A shallow embedding of
    - [backend/src/server.js]: the Socket.IO handlers that keep the [rooms]
      registry and relay editing events,
    - [CodeEditorPanel]: the client's debounced local-edit handler and its
      remote-update handler,
    - [frontend/src/lib/socket.js]: the singleton socket and its emit helpers,
    followed by the properties of the specification proved about them. *)

From stdpp Require Import base list strings gmap.

#[local] Set Warnings "-clear-no-such-hyp".

Open Scope string_scope.
Open Scope list_scope.
Open Scope nat_scope.

(** ** JavaScript [Map]: string keys, entries kept in insertion order *)

Module JSMap.
Section ops.
Context {V : Type}.

(** [m.get(k)] ([None] is [undefined]). *)
Fixpoint get (k : string) (m : list (string * V)) : option V :=
  match m with
  | [] => None
  | (k', v) :: m' => if String.eqb k' k then Some v else get k m'
  end.

(** [m.has(k)]. *)
Definition has (k : string) (m : list (string * V)) : bool :=
  match get k m with Some _ => true | None => false end.

(** [m.set(k, v)]: an existing key keeps its position, a new key goes last. *)
Fixpoint set (k : string) (v : V) (m : list (string * V)) : list (string * V) :=
  match m with
  | [] => [(k, v)]
  | (k', v') :: m' =>
      if String.eqb k' k then (k', v) :: m' else (k', v') :: set k v m'
  end.

(** [m.delete(k)]. *)
Fixpoint delete (k : string) (m : list (string * V)) : list (string * V) :=
  match m with
  | [] => []
  | (k', v') :: m' =>
      if String.eqb k' k then delete k m' else (k', v') :: delete k m'
  end.

(** [m.size], [m.keys()], [m.values()]. *)
Definition size (m : list (string * V)) : nat := length m.
Definition keys (m : list (string * V)) : list string := m.*1.
Definition values (m : list (string * V)) : list V := m.*2.
End ops.
End JSMap.

(** ** Socket.IO rooms

    The library is not part of the repository; this is the behaviour of its
    rooms that the hub relies on. A socket is put in the room named after
    its own id when it connects; [socket.join] and [socket.leave] add it to
    and take it from a room; it is taken out of every room, its own
    included, before the ["disconnect"] event. [socket.to(room).emit]
    reaches the sockets of [room] except those of the room named after the
    sender's id (which is how the sender is left out), and [socket.emit]
    reaches the socket itself. *)

Module SocketIO.
Definition members (room : string) (a : gmap string (gset string)) : gset string :=
  default ∅ (a !! room).

Definition join (sid room : string) (a : gmap string (gset string))
  : gmap string (gset string) :=
  <[room := {[sid]} ∪ members room a]> a.

Definition leave (sid room : string) (a : gmap string (gset string))
  : gmap string (gset string) :=
  alter (λ s, s ∖ {[sid]}) room a.

Definition leave_all (sid : string) (a : gmap string (gset string))
  : gmap string (gset string) :=
  (λ s, s ∖ {[sid]}) <$> a.

(** A socket connects: it joins the room named after its id. *)
Definition connect (sid : string) (a : gmap string (gset string))
  : gmap string (gset string) :=
  join sid sid a.

(** Who [socket.to(room).emit] reaches, [sid] being the sender's id. *)
Definition broadcast (sid room : string) (a : gmap string (gset string))
  : gset string :=
  members room a ∖ members sid a.
End SocketIO.

(** A cursor position, as the editor reports it. *)
Record Position := mkPosition { lineNumber : nat; column : nat }.

(** ** The hub ([server.js]) *)

Module Server.

Record Participant := mkParticipant { userId : string; userName : string }.

(** What reaches the hub from a connection: the connection itself, the
    events the client sends, and the disconnect. *)
Inductive ClientEvent :=
| Connect
| JoinRoom (roomId userId userName : string)
| CodeChange (roomId code language userId : string)
| CursorChange (roomId : string) (position : Position) (userId userName : string)
| LanguageChange (roomId language userId : string)
| RunCode (roomId code language userId : string)
| Disconnect
| LeaveRoom (roomId : string).

(** Events the hub sends to clients. *)
Inductive ServerEvent :=
| UserJoined (userId userName socketId : string)
| RoomUsers (roomUsers : list Participant)
| CodeUpdate (code language userId : string) (timestamp : nat)
| CursorUpdate (position : Position) (userId userName socketId : string)
| LanguageUpdate (language userId : string)
| RunCodeRequest (code language userId : string) (timestamp : nat)
| UserLeft (userId userName socketId : string).

(** How an emission was addressed. *)
Inductive Target :=
| ToRoom (roomId sender : string)   (* socket.to(roomId).emit *)
| ToSocket (socketId : string).     (* socket.emit *)

Record Emission := mkEmission {
  target : Target;
  recipients : gset string;
  packet : ServerEvent
}.

Record Hub := mkHub {
  rooms : list (string * list (string * Participant));
  adapter : gmap string (gset string)
}.

Definition hub0 : Hub := mkHub [] ∅.

(** [socket.to(roomId).emit(ev)] and [socket.emit(ev)]. *)
Definition to_room_emit (sid roomId : string) (ev : ServerEvent) (h : Hub) : Emission :=
  mkEmission (ToRoom roomId sid) (SocketIO.broadcast sid roomId (adapter h)) ev.

Definition socket_emit (sid : string) (ev : ServerEvent) : Emission :=
  mkEmission (ToSocket sid) {[sid]} ev.

(** The participants map of a room; an absent room has none. *)
Definition room_users (roomId : string) (h : Hub) : list (string * Participant) :=
  default [] (JSMap.get roomId (rooms h)).

(** The registry's view of a room: [Array.from(rooms.get(roomId).values())],
    empty for a room that does not exist. *)
Definition listParticipants (roomId : string) (h : Hub) : list Participant :=
  JSMap.values (room_users roomId h).

(** The connection ids registered in a room. *)
Definition connections (roomId : string) (h : Hub) : list string :=
  JSMap.keys (room_users roomId h).

(** [io.on("connection", ...)]: Socket.IO has put the socket in its own
    room; the callback registers the handlers below. *)
Definition on_connection (sid : string) (h : Hub) : Hub * list Emission :=
  (mkHub (rooms h) (SocketIO.connect sid (adapter h)), []).

(** [socket.on("join-room", ...)]. *)
Definition on_join_room (sid roomId uid uname : string) (h : Hub)
  : Hub * list Emission :=
  let io1 := SocketIO.join sid roomId (adapter h) in
  let rooms1 :=
    if negb (JSMap.has roomId (rooms h)) then JSMap.set roomId [] (rooms h)
    else rooms h in
  let rooms2 :=
    match JSMap.get roomId rooms1 with
    | Some users => JSMap.set roomId (JSMap.set sid (mkParticipant uid uname) users) rooms1
    | None => rooms1
    end in
  let h2 := mkHub rooms2 io1 in
  let joined := to_room_emit sid roomId (UserJoined uid uname sid) h2 in
  let roomUsers := JSMap.values (default [] (JSMap.get roomId rooms2)) in
  (h2, [joined; socket_emit sid (RoomUsers roomUsers)]).

(** The four relays: [code-change], [cursor-change], [language-change],
    [run-code]. [now] is the reading of [Date.now()]. *)
Definition on_code_change (now : nat) (sid roomId code language uid : string) (h : Hub)
  : Hub * list Emission :=
  (h, [to_room_emit sid roomId (CodeUpdate code language uid now) h]).

Definition on_cursor_change (sid roomId : string) (pos : Position) (uid uname : string)
    (h : Hub) : Hub * list Emission :=
  (h, [to_room_emit sid roomId (CursorUpdate pos uid uname sid) h]).

Definition on_language_change (sid roomId language uid : string) (h : Hub)
  : Hub * list Emission :=
  (h, [to_room_emit sid roomId (LanguageUpdate language uid) h]).

Definition on_run_code (now : nat) (sid roomId code language uid : string) (h : Hub)
  : Hub * list Emission :=
  (h, [to_room_emit sid roomId (RunCodeRequest code language uid now) h]).

(** The body of the loop of the ["disconnect"] handler, over the entries of
    [rooms] in order. Each iteration touches its own entry only: the user is
    deleted from [users], the others are told, and the entry is dropped when
    [users] became empty. The adapter [a] does not change during the loop. *)
Fixpoint disconnect_loop (sid : string) (a : gmap string (gset string))
    (entries : list (string * list (string * Participant)))
  : list (string * list (string * Participant)) * list Emission :=
  match entries with
  | [] => ([], [])
  | (roomId, users) :: rest =>
      let '(rest', out) := disconnect_loop sid a rest in
      match JSMap.get sid users with
      | Some user =>
          let users' := JSMap.delete sid users in
          let left :=
            mkEmission (ToRoom roomId sid) (SocketIO.broadcast sid roomId a)
              (UserLeft (userId user) (userName user) sid) in
          if Nat.eqb (JSMap.size users') 0 then (rest', left :: out)
          else ((roomId, users') :: rest', left :: out)
      | None => ((roomId, users) :: rest', out)
      end
  end.

(** [socket.on("disconnect", ...)]; Socket.IO has taken the socket out of all
    its rooms before the handler runs. *)
Definition on_disconnect (sid : string) (h : Hub) : Hub * list Emission :=
  let io1 := SocketIO.leave_all sid (adapter h) in
  let '(rooms', out) := disconnect_loop sid io1 (rooms h) in
  (mkHub rooms' io1, out).

(** [socket.on("leave-room", ...)]. *)
Definition on_leave_room (sid roomId : string) (h : Hub) : Hub * list Emission :=
  let io1 := SocketIO.leave sid roomId (adapter h) in
  match JSMap.get roomId (rooms h) with
  | Some users =>
      match JSMap.get sid users with
      | Some user =>
          let users' := JSMap.delete sid users in
          let rooms1 := JSMap.set roomId users' (rooms h) in
          let left :=
            to_room_emit sid roomId (UserLeft (userId user) (userName user) sid)
              (mkHub rooms1 io1) in
          if Nat.eqb (JSMap.size users') 0
          then (mkHub (JSMap.delete roomId rooms1) io1, [left])
          else (mkHub rooms1 io1, [left])
      | None => (mkHub (rooms h) io1, [])
      end
  | None => (mkHub (rooms h) io1, [])
  end.

(** One event arriving at the hub: the socket it came from, the event, and
    the clock reading while it is handled. *)
Record Input := mkInput { clock_ms : nat; socketId : string; event : ClientEvent }.

Definition dispatch (h : Hub) (i : Input) : Hub * list Emission :=
  let sid := socketId i in
  match event i with
  | Connect => on_connection sid h
  | JoinRoom r u n => on_join_room sid r u n h
  | CodeChange r c l u => on_code_change (clock_ms i) sid r c l u h
  | CursorChange r p u n => on_cursor_change sid r p u n h
  | LanguageChange r l u => on_language_change sid r l u h
  | RunCode r c l u => on_run_code (clock_ms i) sid r c l u h
  | Disconnect => on_disconnect sid h
  | LeaveRoom r => on_leave_room sid r h
  end.

(** The hub after a history of events, starting from the empty registry. *)
Definition run_from (h : Hub) (history : list Input) : Hub :=
  fold_left (λ h i, fst (dispatch h i)) history h.

Definition run (history : list Input) : Hub := run_from hub0 history.

(** What handling [i] emits after [history]. *)
Definition emitted (history : list Input) (i : Input) : list Emission :=
  snd (dispatch (run history) i).

(** *** Notions used to state the hub's properties *)

(** Connection [c] is registered in room [r]. *)
Definition member (c r : string) (h : Hub) : Prop := c ∈ connections r h.

(** Input [i] is connection [c] joining room [r]. *)
Definition joins (c r : string) (i : Input) : Prop :=
  socketId i = c ∧ ∃ u n, event i = JoinRoom r u n.

(** Input [i] is connection [c] leaving room [r] or disconnecting. *)
Definition departs (c r : string) (i : Input) : Prop :=
  socketId i = c ∧ (event i = LeaveRoom r ∨ event i = Disconnect).

(** In [history], connection [c] has joined room [r] and has not since left
    it or disconnected. *)
Definition joined_and_still_in (history : list Input) (r c : string) : Prop :=
  ∃ pre i post,
    history = pre ++ i :: post ∧ joins c r i ∧ ∀ j, j ∈ post → ¬ departs c r j.

(** What is left of a room's entry once connection [sid] is taken out of it:
    the entry goes when its last user went. *)
Definition after_removal (sid : string) (users : list (string * Participant))
  : option (list (string * Participant)) :=
  if JSMap.has sid users then
    let users' := JSMap.delete sid users in
    if Nat.eqb (JSMap.size users') 0 then None else Some users'
  else Some users.

(** An entry of [rooms] is well formed: it has users, under distinct keys. *)
Definition entry_ok (entry : string * list (string * Participant)) : Prop :=
  entry.2 ≠ [] ∧ NoDup (JSMap.keys entry.2).

(** The invariant of the hub: the keys of [rooms] are distinct, every entry
    is well formed, and a Socket.IO room holds the connections the registry
    lists under its name and, besides them, at most the socket whose id is
    that name. *)
Definition hub_ok (h : Hub) : Prop :=
  NoDup (JSMap.keys (rooms h))
  ∧ Forall entry_ok (rooms h)
  ∧ ∀ r c, (member c r h → c ∈ SocketIO.members r (adapter h))
           ∧ (c ∈ SocketIO.members r (adapter h) → member c r h ∨ c = r).

(** The room a relayed editing event is addressed to. *)
Definition addressed_room (ev : ClientEvent) : option string :=
  match ev with
  | CodeChange r _ _ _ | CursorChange r _ _ _ | LanguageChange r _ _
  | RunCode r _ _ _ => Some r
  | Connect | JoinRoom _ _ _ | LeaveRoom _ | Disconnect => None
  end.

(** A join for room [r] by connection [sid] finds [sid] in no other room. *)
Definition in_no_other_room (sid r : string) (h : Hub) : bool :=
  forallb (λ entry, String.eqb (fst entry) r || negb (JSMap.has sid (snd entry)))
    (rooms h).

(** No connection of the history asks to join a room while it is still
    registered in another one. *)
Fixpoint one_room_at_a_time_from (h : Hub) (history : list Input) : bool :=
  match history with
  | [] => true
  | i :: rest =>
      match event i with
      | JoinRoom r _ _ => in_no_other_room (socketId i) r h
      | _ => true
      end && one_room_at_a_time_from (fst (dispatch h i)) rest
  end.

Definition one_room_at_a_time (history : list Input) : bool :=
  one_room_at_a_time_from hub0 history.

(** The sockets that are connected, and whether every event so far came
    from a socket that was connected when it came. *)
Definition net_step (st : list string * bool) (i : Input) : list string * bool :=
  let sid := socketId i in
  match event i with
  | Connect => (sid :: fst st, snd st)
  | Disconnect =>
      (List.filter (λ c, negb (String.eqb c sid)) (fst st),
       snd st && existsb (String.eqb sid) (fst st))
  | _ => (fst st, snd st && existsb (String.eqb sid) (fst st))
  end.

Definition net (history : list Input) : list string * bool :=
  fold_left net_step history ([], true).

Definition online (history : list Input) : list string := fst (net history).

(** Every event of the history other than a connection comes from a socket
    that is connected at that point: the histories a hub can see. *)
Definition from_connected (history : list Input) : bool := snd (net history).

(** The room an event names, if it names one. *)
Definition named_room (ev : ClientEvent) : option string :=
  match ev with
  | JoinRoom r _ _ | LeaveRoom r
  | CodeChange r _ _ _ | CursorChange r _ _ _ | LanguageChange r _ _
  | RunCode r _ _ _ => Some r
  | Connect | Disconnect => None
  end.

(** Room ids and connection ids are kept apart: no event of the history
    names a room whose id is the id of a socket of the history. *)
Definition rooms_apart (history : list Input) : bool :=
  forallb (λ i,
      match named_room (event i) with
      | Some r => negb (existsb (String.eqb r) (map socketId history))
      | None => true
      end) history.

(** The same, against a given list of socket ids. *)
Definition apart_from (ids : list string) (history : list Input) : Prop :=
  Forall (λ i, socketId i ∈ ids
               ∧ ∀ r, named_room (event i) = Some r → r ∉ ids) history.

(** The room a relayed editing event goes out to and the event it goes out
    as, by the wire vocabulary: code-change as code-update and run-code as
    run-code, both stamped with the time; cursor-change as cursor-update,
    with the sender's socket id; language-change as language-update. *)
Definition relayed (i : Input) : option (string * ServerEvent) :=
  match event i with
  | CodeChange r code language uid =>
      Some (r, CodeUpdate code language uid (clock_ms i))
  | CursorChange r pos uid uname =>
      Some (r, CursorUpdate pos uid uname (socketId i))
  | LanguageChange r language uid => Some (r, LanguageUpdate language uid)
  | RunCode r code language uid =>
      Some (r, RunCodeRequest code language uid (clock_ms i))
  | Connect | JoinRoom _ _ _ | LeaveRoom _ | Disconnect => None
  end.

End Server.

(** ** The client's editor panel ([CodeEditorPanel]) *)

Module Editor.

(** The [socket] prop; the panel reads its [connected] field only. *)
Record SocketHandle := mkSocketHandle { connected : bool }.

(** The props the handlers close over. [None] is [undefined]. *)
Record Props := mkProps {
  socket : option SocketHandle;
  roomId : option string;
  userId : option string;
  selectedLanguage : string
}.

(** The payload of an outbound ["code-change"]. *)
Record CodeChangeMsg := mkCodeChangeMsg {
  msg_roomId : option string;
  msg_code : string;
  msg_language : string;
  msg_userId : option string
}.

(** The mounted Monaco editor: its buffer and its cursor. *)
Record Monaco := mkMonaco { value : string; position : option Position }.

(** A pending [setTimeout]: its handle, the time it is due, and the message
    its callback emits. *)
Record Timer := mkTimer { timerId : nat; deadline : nat; callback : CodeChangeMsg }.

Record Panel := mkPanel {
  code : string;                      (* the parent's state, set by onCodeChange *)
  onCodeChangeCalls : list string;    (* every call of onCodeChange *)
  isRemoteChangeRef : bool;
  debounceTimerRef : option nat;
  editorRef : option Monaco;
  timers : list Timer;                (* the browser's pending timeouts *)
  nextTimerId : nat;
  now : nat;                          (* the browser's clock, in ms *)
  sent : list CodeChangeMsg           (* socket.emit("code-change", ...) *)
}.

Definition panel0 (initialCode : string) : Panel :=
  mkPanel initialCode [] false None None [] 0 0 [].

(** JavaScript truthiness of a string that may be undefined. *)
Definition truthy (s : option string) : bool :=
  match s with
  | Some s => negb (String.eqb s "")
  | None => false
  end.

(** [socket?.connected && roomId && userId]. *)
Definition can_emit (p : Props) : bool :=
  match socket p with
  | Some s => connected s
  | None => false
  end && truthy (roomId p) && truthy (userId p).

Definition set_flag (b : bool) (st : Panel) : Panel :=
  mkPanel (code st) (onCodeChangeCalls st) b (debounceTimerRef st) (editorRef st)
    (timers st) (nextTimerId st) (now st) (sent st).

Definition set_editor (e : option Monaco) (st : Panel) : Panel :=
  mkPanel (code st) (onCodeChangeCalls st) (isRemoteChangeRef st) (debounceTimerRef st) e
    (timers st) (nextTimerId st) (now st) (sent st).

(** [onCodeChange(v)]: the parent stores the new code. *)
Definition onCodeChange (v : string) (st : Panel) : Panel :=
  mkPanel v (onCodeChangeCalls st ++ [v]) (isRemoteChangeRef st) (debounceTimerRef st)
    (editorRef st) (timers st) (nextTimerId st) (now st) (sent st).

(** [clearTimeout(id)]: a handle that is not pending is ignored. *)
Definition clearTimeout (id : option nat) (st : Panel) : Panel :=
  match id with
  | Some i =>
      mkPanel (code st) (onCodeChangeCalls st) (isRemoteChangeRef st) (debounceTimerRef st)
        (editorRef st) (List.filter (λ t, negb (Nat.eqb (timerId t) i)) (timers st))
        (nextTimerId st) (now st) (sent st)
  | None => st
  end.

(** [setTimeout(() => socket.emit("code-change", m), delay)]. *)
Definition setTimeout (m : CodeChangeMsg) (delay : nat) (st : Panel) : nat * Panel :=
  let id := nextTimerId st in
  (id, mkPanel (code st) (onCodeChangeCalls st) (isRemoteChangeRef st) (debounceTimerRef st)
         (editorRef st) (timers st ++ [mkTimer id (now st + delay) m])
         (S id) (now st) (sent st)).

Definition set_debounceTimerRef (id : option nat) (st : Panel) : Panel :=
  mkPanel (code st) (onCodeChangeCalls st) (isRemoteChangeRef st) id
    (editorRef st) (timers st) (nextTimerId st) (now st) (sent st).

(** The debounce delay. *)
Definition debounce_ms : nat := 300.

(** [handleCodeChange(value)]. *)
Definition handleCodeChange (p : Props) (v : string) (st : Panel) : Panel :=
  if isRemoteChangeRef st then set_flag false st
  else
    let st1 := onCodeChange v st in
    if can_emit p then
      let st2 := clearTimeout (debounceTimerRef st1) st1 in
      let '(id, st3) :=
        setTimeout (mkCodeChangeMsg (roomId p) v (selectedLanguage p) (userId p))
          debounce_ms st2 in
      set_debounceTimerRef (Some id) st3
    else st1.

(** [editor.setValue(v)]: the buffer is replaced, the cursor goes back to the
    start, and the editor reports the change to its [onChange], which is
    [handleCodeChange]. *)
Definition setValue (p : Props) (v : string) (st : Panel) : Panel :=
  handleCodeChange p v
    (set_editor (Some (mkMonaco v (Some (mkPosition 1 1)))) st).

(** [editor.setPosition(pos)]. *)
Definition setPosition (pos : Position) (st : Panel) : Panel :=
  match editorRef st with
  | Some ed => set_editor (Some (mkMonaco (value ed) (Some pos))) st
  | None => st
  end.

(** [handleCodeUpdate({ code, language, userId })]. *)
Definition handleCodeUpdate (p : Props) (remoteCode : string)
    (remoteUserId : option string) (st : Panel) : Panel :=
  if bool_decide (remoteUserId = userId p) then st
  else
    let st1 := set_flag true st in
    let st2 := onCodeChange remoteCode st1 in
    match editorRef st2 with
    | Some ed =>
        let currentPosition := position ed in
        let st3 := setValue p remoteCode st2 in
        match currentPosition with
        | Some pos => setPosition pos st3
        | None => st3
        end
    | None => st2
    end.

(** The clock reaches [t]: the timeouts that are due run, oldest first (all
    timeouts have the same delay, so they are due in the order they were
    set). *)
Definition advance (t : nat) (st : Panel) : Panel :=
  let due := List.filter (λ tm, Nat.leb (deadline tm) t) (timers st) in
  let rest := List.filter (λ tm, negb (Nat.leb (deadline tm) t)) (timers st) in
  mkPanel (code st) (onCodeChangeCalls st) (isRemoteChangeRef st) (debounceTimerRef st)
    (editorRef st) rest (nextTimerId st) (Nat.max (now st) t)
    (sent st ++ map callback due).

(** The user's typing turns the buffer of the mounted editor into [v]. *)
Definition typed (v : string) (st : Panel) : Panel :=
  match editorRef st with
  | Some ed => set_editor (Some (mkMonaco v (position ed))) st
  | None => st
  end.

(** A local edit at time [t] with new buffer content [v]: the editor reports
    it to its [onChange]. *)
Definition edit_at (p : Props) (st : Panel) (e : nat * string) : Panel :=
  handleCodeChange p (snd e) (typed (snd e) (advance (fst e) st)).

Definition edits (p : Props) (es : list (nat * string)) (st : Panel) : Panel :=
  fold_left (edit_at p) es st.

(** Every edit comes less than the debounce delay after the one before it;
    the first one not before [t0]. *)
Fixpoint chained (prev : nat) (es : list (nat * string)) : bool :=
  match es with
  | [] => true
  | (t, _) :: es' =>
      Nat.leb prev t && Nat.ltb t (prev + debounce_ms) && chained t es'
  end.

Definition one_window (t0 : nat) (es : list (nat * string)) : bool :=
  match es with
  | [] => true
  | (t, _) :: es' => Nat.leb t0 t && chained t es'
  end.

(** The message a local edit to [v] schedules. *)
Definition code_change_of (p : Props) (v : string) : CodeChangeMsg :=
  mkCodeChangeMsg (roomId p) v (selectedLanguage p) (userId p).

(** The panel inside a debounce window: the last edit was [v] at time [t],
    its timeout is the only one pending, and what was sent is still
    [sent0]. *)
Definition pending_edit (p : Props) (t : nat) (v : string)
    (sent0 : list CodeChangeMsg) (st : Panel) : Prop :=
  ∃ id,
    now st = t
    ∧ timers st = [mkTimer id (t + debounce_ms) (code_change_of p v)]
    ∧ debounceTimerRef st = Some id
    ∧ sent st = sent0
    ∧ isRemoteChangeRef st = false.

End Editor.

(** ** The singleton socket ([socket.js]) *)

Module SocketClient.

Inductive ClientMsg :=
| JoinRoomMsg (roomId userId userName : string)
| LeaveRoomMsg (roomId : string)
| CodeChangeMsg (roomId code language userId : string)
| CursorChangeMsg (roomId : string) (position : Position) (userId userName : string)
| LanguageChangeMsg (roomId language userId : string).

(** A Socket.IO client socket: where it connects to, whether the transport
    is up, the events it listens to, and what was handed to [emit]. *)
Record Socket := mkSocket {
  url : string;
  connected : bool;
  listeners : list string;
  emitted : list ClientMsg
}.

(** How a call ends: it returns, or it throws a [TypeError]. *)
Inductive Completion (A : Type) :=
| Returns (a : A)
| Throws.
Arguments Returns {A} a.
Arguments Throws {A}.

(** [a || b] on strings that may be undefined. *)
Definition or_else (a : option string) (b : option string) : option string :=
  match a with
  | Some s => if String.eqb s "" then b else a
  | None => b
  end.

(** [io(url, options)]: a new socket, not yet connected. *)
Definition io (u : string) : Socket := mkSocket u false [] [].

(** [s.on(name, handler)]. *)
Definition on (name : string) (s : Socket) : Socket :=
  mkSocket (url s) (connected s) (listeners s ++ [name]) (emitted s).

(** [getSocket(serverUrl)]; the state is the module's [socket] variable, and
    [env] is [import.meta.env.VITE_SOCKET_URL]. The result is always a
    socket, held by the variable. *)
Definition getSocket (serverUrl env : option string) (socket : option Socket) : Socket :=
  match socket with
  | Some s => s
  | None =>
      let u := default "http://localhost:3000"
                 (or_else (or_else serverUrl env) (Some "http://localhost:3000")) in
      on "reconnect" (on "connect_error" (on "disconnect" (on "connect" (io u))))
  end.

(** [x.emit(m)]; calling it on [null] throws. *)
Definition emit (m : ClientMsg) (x : option Socket) : Completion (option Socket) :=
  match x with
  | Some s => Returns (Some (mkSocket (url s) (connected s) (listeners s) (emitted s ++ [m])))
  | None => Throws
  end.

(** [socket?.connected], as a condition. *)
Definition is_connected (socket : option Socket) : bool :=
  match socket with
  | Some s => connected s
  | None => false
  end.

Definition isSocketConnected (socket : option Socket) : bool :=
  is_connected socket || false.

Definition disconnectSocket (socket : option Socket) : option Socket := None.

Definition joinRoom (env : option string) (roomId userId userName : string)
    (socket : option Socket) : Completion (option Socket) :=
  let socketInstance := getSocket None env socket in
  emit (JoinRoomMsg roomId userId userName) (Some socketInstance).

Definition leaveRoom (roomId : string) (socket : option Socket)
  : Completion (option Socket) :=
  match socket with
  | Some _ => emit (LeaveRoomMsg roomId) socket
  | None => Returns socket
  end.

Definition emitCodeChange (roomId code language userId : string)
    (socket : option Socket) : Completion (option Socket) :=
  if is_connected socket then emit (CodeChangeMsg roomId code language userId) socket
  else Returns socket.

Definition emitCursorChange (roomId : string) (position : Position)
    (userId userName : string) (socket : option Socket) : Completion (option Socket) :=
  if is_connected socket then emit (CursorChangeMsg roomId position userId userName) socket
  else Returns socket.

Definition emitLanguageChange (roomId language userId : string)
    (socket : option Socket) : Completion (option Socket) :=
  if is_connected socket then emit (LanguageChangeMsg roomId language userId) socket
  else Returns socket.

(** What the socket has been asked to send so far. *)
Definition outbox (socket : option Socket) : list ClientMsg :=
  match socket with
  | Some s => emitted s
  | None => []
  end.

End SocketClient.

(** ** Further notions about the hub *)

Module ServerNotions.
Import Server.

(** The event is a join, a leave or a disconnect, not a relay. *)
Definition lifecycle (i : Input) : bool :=
  match addressed_room (event i) with
  | None => true
  | Some _ => false
  end.

(** In [history], the last thing connection [c] did about room [r] was to
    join it as [p]. *)
Definition registered_as (history : list Input) (r c : string) (p : Participant)
  : Prop :=
  ∃ pre i post,
    history = pre ++ i :: post
    ∧ socketId i = c
    ∧ event i = JoinRoom r (userId p) (userName p)
    ∧ ∀ j, j ∈ post → ¬ joins c r j ∧ ¬ departs c r j.

(** The rooms connection [sid] is registered in, in the order of [rooms]. *)
Definition rooms_of (sid : string) (h : Hub) : list string :=
  (List.filter (λ entry, JSMap.has sid entry.2) (rooms h)).*1.

End ServerNotions.

(** ** The rest of the editor panel: mounting, unmounting, language sync *)

Module EditorLifecycle.
Import Editor.

(** [handleEditorDidMount(editor, monaco)]. *)
Definition handleEditorDidMount (editor : Monaco) (st : Panel) : Panel :=
  set_editor (Some editor) st.

(** The cleanup of the last effect, run when the panel is unmounted:
    [if (debounceTimerRef.current) clearTimeout(debounceTimerRef.current)].
    A handle that is [null] or [0] is falsy. *)
Definition unmount (st : Panel) : Panel :=
  match debounceTimerRef st with
  | Some id => if Nat.eqb id 0 then st else clearTimeout (Some id) st
  | None => st
  end.

(** What can happen to a mounted panel, with the props of the render it
    happens in. *)
Inductive Happening :=
| LocalEdit (p : Props) (v : string)
| CodeUpdateArrives (p : Props) (remoteCode : string) (remoteUserId : option string)
| EditorMounts (editor : Monaco).

(** One happening at time [e.1]: the timeouts due by then run first. *)
Definition happen (st : Panel) (e : nat * Happening) : Panel :=
  let st1 := advance (fst e) st in
  match snd e with
  | LocalEdit p v => handleCodeChange p v (typed v st1)
  | CodeUpdateArrives p c u => handleCodeUpdate p c u st1
  | EditorMounts editor => handleEditorDidMount editor st1
  end.

Definition session (es : list (nat * Happening)) (st : Panel) : Panel :=
  fold_left happen es st.

(** No timeout is pending but, at most, the one [debounceTimerRef] holds;
    handles are not below [lo]. *)
Definition pending_ok (lo : nat) (st : Panel) : Prop :=
  lo ≤ nextTimerId st
  ∧ (timers st = []
     ∨ ∃ tm, timers st = [tm]
             ∧ debounceTimerRef st = Some (timerId tm)
             ∧ lo ≤ timerId tm).

(** The payload of an outbound ["language-change"]. *)
Record LanguageChangeMsg := mkLanguageChangeMsg {
  lmsg_roomId : option string;
  lmsg_language : string;
  lmsg_userId : option string
}.

(** What the language handlers act on: the calls of [onLanguageChange] (by
    the language of the event handed over) and the ["language-change"]
    events given to [socket.emit]. *)
Record LanguageSync := mkLanguageSync {
  onLanguageChangeCalls : list string;
  sentLanguage : list LanguageChangeMsg
}.

(** [handleLanguageUpdate({ language, userId })]. *)
Definition handleLanguageUpdate (p : Props) (language : string)
    (remoteUserId : option string) (ls : LanguageSync) : LanguageSync :=
  if bool_decide (remoteUserId = userId p) then ls
  else mkLanguageSync (onLanguageChangeCalls ls ++ [language]) (sentLanguage ls).

(** [handleLanguageChangeWithSync(e)], with [newLang = e.target.value]. *)
Definition handleLanguageChangeWithSync (p : Props) (newLang : string)
    (ls : LanguageSync) : LanguageSync :=
  let calls := onLanguageChangeCalls ls ++ [newLang] in
  if can_emit p
  then mkLanguageSync calls
         (sentLanguage ls ++ [mkLanguageChangeMsg (roomId p) newLang (userId p)])
  else mkLanguageSync calls (sentLanguage ls).

(** A run of language-update events arriving at the panel. *)
Definition language_updates (p : Props) (updates : list (string * option string))
    (ls : LanguageSync) : LanguageSync :=
  fold_left (λ ls u, handleLanguageUpdate p (fst u) (snd u) ls) updates ls.

End EditorLifecycle.

(** ** Sequences of calls to the socket module *)

Module SocketClientOps.
Import SocketClient.

(** A call of one of the module's exports, or the transport going up or
    down under the socket. *)
Inductive Call :=
| CallGetSocket (serverUrl : option string)
| CallDisconnectSocket
| CallJoinRoom (roomId userId userName : string)
| CallLeaveRoom (roomId : string)
| CallEmitCodeChange (roomId code language userId : string)
| CallEmitCursorChange (roomId : string) (position : Position) (userId userName : string)
| CallEmitLanguageChange (roomId language userId : string)
| Transport (up : bool).

(** The transport connects or drops: the socket's [connected] follows. *)
Definition transport (up : bool) (socket : option Socket) : option Socket :=
  match socket with
  | Some s => Some (mkSocket (url s) up (listeners s) (emitted s))
  | None => None
  end.

Definition perform (env : option string) (c : Call) (socket : option Socket)
  : Completion (option Socket) :=
  match c with
  | CallGetSocket serverUrl => Returns (Some (getSocket serverUrl env socket))
  | CallDisconnectSocket => Returns (disconnectSocket socket)
  | CallJoinRoom r u n => joinRoom env r u n socket
  | CallLeaveRoom r => leaveRoom r socket
  | CallEmitCodeChange r c l u => emitCodeChange r c l u socket
  | CallEmitCursorChange r pos u n => emitCursorChange r pos u n socket
  | CallEmitLanguageChange r l u => emitLanguageChange r l u socket
  | Transport up => Returns (transport up socket)
  end.

(** The calls in order; a throw ends the run. *)
Fixpoint perform_all (env : option string) (cs : list Call) (socket : option Socket)
  : Completion (option Socket) :=
  match cs with
  | [] => Returns socket
  | c :: cs' =>
      match perform env c socket with
      | Returns socket' => perform_all env cs' socket'
      | Throws => Throws
      end
  end.

(** The listeners [getSocket] registers on a socket it creates. *)
Definition own_listeners : list string :=
  ["connect"; "disconnect"; "connect_error"; "reconnect"].

(** The module's socket, when there is one, is as [getSocket] made it: it
    has a url and the four listeners, each once. *)
Definition as_created (socket : option Socket) : Prop :=
  match socket with
  | Some s => listeners s = own_listeners ∧ url s ≠ ""
  | None => True
  end.

End SocketClientOps.

(** ** The chat token controller ([getStreamToken]) *)

Module ChatController.

(** [req.user], as the auth middleware leaves it. *)
Record User := mkUser { clerkId : string; name : string; image : string }.

(** The request; [user] is [None] when no user was attached to it. *)
Record Request := mkRequest { user : option User }.

(** How [chatClient.createToken] ends: with a token, or by throwing. *)
Inductive TokenResult :=
| Token (token : string)
| TokenError (message : string).

Inductive Body :=
| TokenBody (token userId userName userImage : string)
| MessageBody (message : string).

(** What was sent with [res.status(...).json(...)]. *)
Record Response := mkResponse { status : nat; body : Body }.

(** [getStreamToken(req, res)]. [createToken] is the chat client's, which is
    not part of these sources. Reading [req.user.clerkId] throws when there
    is no user, and the [catch] answers for every throw. *)
Definition getStreamToken (createToken : string → TokenResult) (req : Request)
  : Response :=
  match user req with
  | Some u =>
      match createToken (clerkId u) with
      | Token token =>
          mkResponse 200 (TokenBody token (clerkId u) (name u) (image u))
      | TokenError _ => mkResponse 500 (MessageBody "Internal Server Error")
      end
  | None => mkResponse 500 (MessageBody "Internal Server Error")
  end.

End ChatController.

(** * Properties *)

(** ** Facts about [JSMap] *)

Module JSMapFacts.
Section facts.
Context {V : Type}.
Implicit Types (m : list (string * V)) (k : string) (v : V).

Lemma get_set_eq k v m : JSMap.get k (JSMap.set k v m) = Some v.
Proof.
  induction m as [|[k' v'] m IH]; simpl.
  - by rewrite String.eqb_refl.
  - destruct (String.eqb_spec k' k) as [->|Hne]; simpl.
    + by rewrite String.eqb_refl.
    + by destruct (String.eqb_spec k' k).
Qed.

Lemma get_set_ne k k' v m : k ≠ k' → JSMap.get k' (JSMap.set k v m) = JSMap.get k' m.
Proof.
  intros Hne. induction m as [|[k0 v0] m IH]; simpl.
  - by destruct (String.eqb_spec k k').
  - destruct (String.eqb_spec k0 k) as [->|H0]; simpl.
    + by destruct (String.eqb_spec k k').
    + by rewrite IH.
Qed.

Lemma get_delete_eq k m : JSMap.get k (JSMap.delete k m) = None.
Proof.
  induction m as [|[k' v'] m IH]; simpl; [done|].
  destruct (String.eqb_spec k' k) as [->|Hne]; simpl; [done|].
  by destruct (String.eqb_spec k' k).
Qed.

Lemma get_delete_ne k k' m : k ≠ k' → JSMap.get k' (JSMap.delete k m) = JSMap.get k' m.
Proof.
  intros Hne. induction m as [|[k0 v0] m IH]; simpl; [done|].
  destruct (String.eqb_spec k0 k) as [->|H0]; simpl.
  - by destruct (String.eqb_spec k k').
  - by rewrite IH.
Qed.

Lemma elem_of_keys k m : k ∈ JSMap.keys m ↔ is_Some (JSMap.get k m).
Proof.
  unfold JSMap.keys. induction m as [|[k' v'] m IH]; simpl.
  - split; [by intros ?%elem_of_nil | by intros [? ?]].
  - rewrite elem_of_cons, IH.
    destruct (String.eqb_spec k' k) as [->|Hne].
    + split; [by eauto | by left].
    + split; [intros [?|?]; [congruence|done] | by right].
Qed.

Lemma not_elem_of_keys k m : k ∉ JSMap.keys m ↔ JSMap.get k m = None.
Proof. rewrite elem_of_keys, eq_None_not_Some. done. Qed.

Lemma has_true k m : JSMap.has k m = true ↔ k ∈ JSMap.keys m.
Proof.
  rewrite elem_of_keys. unfold JSMap.has.
  destruct (JSMap.get k m); split; intros H; done.
Qed.

Lemma elem_of_keys_set k k' v m :
  k' ∈ JSMap.keys (JSMap.set k v m) ↔ k' = k ∨ k' ∈ JSMap.keys m.
Proof.
  rewrite !elem_of_keys. destruct (decide (k = k')) as [->|Hne].
  - rewrite get_set_eq. naive_solver.
  - rewrite get_set_ne by done. naive_solver.
Qed.

Lemma elem_of_keys_delete k k' m :
  k' ∈ JSMap.keys (JSMap.delete k m) ↔ k' ≠ k ∧ k' ∈ JSMap.keys m.
Proof.
  rewrite !elem_of_keys. destruct (decide (k = k')) as [->|Hne].
  - rewrite get_delete_eq. split; [by intros [? ?] | naive_solver].
  - rewrite get_delete_ne by done. naive_solver.
Qed.

(** [set] keeps the order of the keys; a new key is appended. *)
Lemma keys_set k v m :
  JSMap.keys (JSMap.set k v m) =
    if JSMap.has k m then JSMap.keys m else JSMap.keys m ++ [k].
Proof.
  unfold JSMap.keys, JSMap.has. induction m as [|[k' v'] m IH]; csimpl; [done|].
  destruct (String.eqb_spec k' k) as [->|Hne]; csimpl; [done|].
  rewrite IH. by destruct (JSMap.get k m).
Qed.

Lemma keys_delete_sublist k m : sublist (JSMap.keys (JSMap.delete k m)) (JSMap.keys m).
Proof.
  unfold JSMap.keys. induction m as [|[k' v'] m IH]; csimpl; [done|].
  destruct (String.eqb k' k); csimpl; by constructor.
Qed.

Lemma NoDup_keys_set k v m : NoDup (JSMap.keys m) → NoDup (JSMap.keys (JSMap.set k v m)).
Proof.
  intros Hnd. rewrite keys_set. destruct (JSMap.has k m) eqn:Hhas; [done|].
  apply NoDup_app. split_and!; [done| |apply NoDup_singleton].
  intros x Hx ->%list_elem_of_singleton.
  apply has_true in Hx. congruence.
Qed.

Lemma NoDup_keys_delete k m : NoDup (JSMap.keys m) → NoDup (JSMap.keys (JSMap.delete k m)).
Proof. intros. by eapply sublist_NoDup, keys_delete_sublist. Qed.

Lemma size_0 m : Nat.eqb (JSMap.size m) 0 = true ↔ m = [].
Proof. unfold JSMap.size. destruct m; csimpl; naive_solver. Qed.

(** A value already stored is kept where it is when another key is set. *)
Lemma values_set_fresh k v m :
  JSMap.get k m = None → JSMap.values (JSMap.set k v m) = JSMap.values m ++ [v].
Proof.
  unfold JSMap.values. induction m as [|[k' v'] m IH]; csimpl; [done|].
  destruct (String.eqb_spec k' k) as [->|Hne]; csimpl; [done|].
  intros H. by rewrite IH.
Qed.

Lemma set_set k v v' m : JSMap.set k v' (JSMap.set k v m) = JSMap.set k v' m.
Proof.
  induction m as [|[k0 v0] m IH]; csimpl.
  - by rewrite String.eqb_refl.
  - destruct (String.eqb_spec k0 k) as [->|Hne]; csimpl.
    + by rewrite String.eqb_refl.
    + destruct (String.eqb_spec k0 k); [done|]. by rewrite IH.
Qed.

Lemma delete_set k v m : JSMap.delete k (JSMap.set k v m) = JSMap.delete k m.
Proof.
  induction m as [|[k' v'] m IH]; csimpl.
  - by rewrite String.eqb_refl.
  - destruct (String.eqb_spec k' k) as [->|Hne]; csimpl.
    + by rewrite String.eqb_refl.
    + destruct (String.eqb_spec k' k); [done|]. by rewrite IH.
Qed.

Lemma get_Some_elem_of k v m : JSMap.get k m = Some v → (k, v) ∈ m.
Proof.
  induction m as [|[k' v'] m IH]; csimpl; [done|].
  destruct (String.eqb_spec k' k) as [->|Hne].
  - intros [= ->]. by left.
  - intros H. right. by apply IH.
Qed.

Lemma length_set_present k v v0 m :
  JSMap.get k m = Some v0 → length (JSMap.set k v m) = length m.
Proof.
  induction m as [|[k' v'] m IH]; csimpl; [done|].
  destruct (String.eqb_spec k' k) as [->|Hne]; csimpl; [done|].
  intros H. by rewrite IH.
Qed.

Lemma elem_of_values k v m : JSMap.get k m = Some v → v ∈ JSMap.values m.
Proof.
  intros H%get_Some_elem_of. unfold JSMap.values.
  apply list_elem_of_fmap. by exists (k, v).
Qed.

Lemma set_same k v m : JSMap.get k m = Some v → JSMap.set k v m = m.
Proof.
induction m as [|[k' v'] m IH]; csimpl; [done|].
destruct (String.eqb_spec k' k) as [->|Hne].
- by intros [= ->].
- intros H. by rewrite IH.
Qed.

Lemma elem_of_get k v m :
  NoDup (JSMap.keys m) → (k, v) ∈ m → JSMap.get k m = Some v.
Proof.
unfold JSMap.keys. induction m as [|[k' v'] m IH]; csimpl.
- by intros _ ?%elem_of_nil.
- intros [Hk Hnd]%NoDup_cons [[= <- <-]|Hin]%elem_of_cons.
  + by rewrite String.eqb_refl.
  + destruct (String.eqb_spec k' k) as [->|Hne]; [|by apply IH].
    exfalso. apply Hk. apply list_elem_of_fmap. by exists (k, v).
Qed.

Lemma delete_absent k m : JSMap.get k m = None → JSMap.delete k m = m.
Proof.
  induction m as [|[k' v'] m IH]; csimpl; [done|].
  destruct (String.eqb_spec k' k) as [->|Hne]; csimpl; [done|].
  intros H. by rewrite IH.
Qed.
End facts.
End JSMapFacts.

(** ** Facts about the Socket.IO rooms *)

Module SocketIOFacts.
Implicit Types (a : gmap string (gset string)) (c sid r : string).

Lemma elem_of_members_join c sid r r' a :
  c ∈ SocketIO.members r' (SocketIO.join sid r a) ↔
  (r' = r ∧ c = sid) ∨ c ∈ SocketIO.members r' a.
Proof.
  unfold SocketIO.join, SocketIO.members.
  destruct (decide (r = r')) as [->|Hne].
  - rewrite lookup_insert_eq. simpl. set_solver.
  - rewrite lookup_insert_ne by done. set_solver.
Qed.

Lemma elem_of_members_leave c sid r r' a :
  c ∈ SocketIO.members r' (SocketIO.leave sid r a) ↔
  c ∈ SocketIO.members r' a ∧ ¬ (r' = r ∧ c = sid).
Proof.
  unfold SocketIO.leave, SocketIO.members.
  destruct (decide (r = r')) as [->|Hne].
  - rewrite lookup_alter_eq. destruct (a !! r'); simpl; set_solver.
  - rewrite lookup_alter_ne by done. set_solver.
Qed.

Lemma elem_of_members_leave_all c sid r a :
  c ∈ SocketIO.members r (SocketIO.leave_all sid a) ↔
  c ∈ SocketIO.members r a ∧ c ≠ sid.
Proof.
  unfold SocketIO.leave_all, SocketIO.members.
  rewrite lookup_fmap. destruct (a !! r); simpl; set_solver.
Qed.
Lemma elem_of_members_connect c sid r a :
  c ∈ SocketIO.members r (SocketIO.connect sid a) ↔
  (r = sid ∧ c = sid) ∨ c ∈ SocketIO.members r a.
Proof. apply elem_of_members_join. Qed.

Lemma elem_of_broadcast c sid r a :
  c ∈ SocketIO.broadcast sid r a ↔
  c ∈ SocketIO.members r a ∧ c ∉ SocketIO.members sid a.
Proof. unfold SocketIO.broadcast. apply elem_of_difference. Qed.
End SocketIOFacts.

(** ** Facts about the hub's handlers *)

Module ServerFacts.
Import Server JSMapFacts.

Implicit Types (h : Hub) (c sid r : string) (i : Input).

Lemma run_snoc history i : run (history ++ [i]) = fst (dispatch (run history) i).
Proof. unfold run, run_from. by rewrite fold_left_app. Qed.

Lemma run_from_snoc h history i :
  run_from h (history ++ [i]) = fst (dispatch (run_from h history) i).
Proof. unfold run_from. by rewrite fold_left_app. Qed.

(** *** What each handler does to the entry of a room *)

Lemma rooms_join sid r u n h r' :
  JSMap.get r' (rooms (on_join_room sid r u n h).1) =
    if decide (r' = r)
    then Some (JSMap.set sid (mkParticipant u n) (room_users r h))
    else JSMap.get r' (rooms h).
Proof.
  unfold on_join_room, room_users, JSMap.has. simpl.
  destruct (JSMap.get r (rooms h)) as [users|] eqn:Hr; simpl.
  - rewrite Hr. case_decide as Heq; [subst r'; apply get_set_eq|].
    by rewrite get_set_ne.
  - rewrite get_set_eq. case_decide as Heq; [subst r'; apply get_set_eq|].
    by rewrite !get_set_ne.
Qed.

Lemma rooms_leave sid r h r' :
  JSMap.get r' (rooms (on_leave_room sid r h).1) =
    if decide (r' = r)
    then JSMap.get r (rooms h) ≫= after_removal sid
    else JSMap.get r' (rooms h).
Proof.
  unfold on_leave_room, after_removal, JSMap.has.
  destruct (JSMap.get r (rooms h)) as [users|] eqn:Hr; simpl;
    [|by case_decide; subst].
  destruct (JSMap.get sid users) as [user|] eqn:Hu; simpl;
    [|by case_decide; subst].
  destruct (Nat.eqb (JSMap.size (JSMap.delete sid users)) 0); simpl;
    case_decide as Heq; subst.
  - apply get_delete_eq.
  - by rewrite get_delete_ne, get_set_ne.
  - apply get_set_eq.
  - by rewrite get_set_ne.
Qed.

Lemma disconnect_loop_keys sid a entries :
  sublist (JSMap.keys (disconnect_loop sid a entries).1) (JSMap.keys entries).
Proof.
  unfold JSMap.keys. induction entries as [|[k users] rest IH]; csimpl; [done|].
  destruct (disconnect_loop sid a rest) as [rest' out]. simpl in IH.
  destruct (JSMap.get sid users); [|by constructor].
  destruct (Nat.eqb _ 0); csimpl; by constructor.
Qed.

Lemma disconnect_loop_get sid a entries r :
  NoDup (JSMap.keys entries) →
  JSMap.get r (disconnect_loop sid a entries).1 =
    JSMap.get r entries ≫= after_removal sid.
Proof.
  unfold JSMap.keys. induction entries as [|[k users] rest IH]; csimpl; [done|].
  intros [Hk Hnd]%NoDup_cons. specialize (IH Hnd).
  destruct (disconnect_loop sid a rest) as [rest' out]. simpl in IH.
  assert (Hrest : k = r → JSMap.get r rest' = None).
  { intros ->. rewrite IH. apply not_elem_of_keys in Hk. by rewrite Hk. }
  destruct (JSMap.get sid users) as [user|] eqn:Hu;
    [destruct (Nat.eqb _ 0) eqn:Hsz|]; simpl;
    destruct (String.eqb_spec k r) as [Heq|Hne]; simpl; try done;
    unfold after_removal, JSMap.has; rewrite Hu, ?Hsz; auto.
Qed.

Lemma rooms_disconnect sid h r :
  NoDup (JSMap.keys (rooms h)) →
  JSMap.get r (rooms (on_disconnect sid h).1) =
    JSMap.get r (rooms h) ≫= after_removal sid.
Proof.
  intros Hnd. unfold on_disconnect.
  pose proof (disconnect_loop_get sid (SocketIO.leave_all sid (adapter h)) (rooms h) r Hnd) as H.
  by destruct (disconnect_loop _ _ _).
Qed.

(** *** What each handler does to membership *)

Lemma keys_after_removal sid c (o : option (list (string * Participant))) :
  c ∈ JSMap.keys (default [] (o ≫= after_removal sid)) ↔
  c ∈ JSMap.keys (default [] o) ∧ c ≠ sid.
Proof.
  destruct o as [users|]; simpl; [|by rewrite elem_of_nil; tauto].
  unfold after_removal. destruct (JSMap.has sid users) eqn:Hhas.
  - destruct (Nat.eqb _ 0) eqn:Hsz; simpl.
    + apply size_0 in Hsz.
      pose proof (elem_of_keys_delete sid c users) as H. rewrite Hsz in H.
      unfold JSMap.keys in H at 1. simpl in H. tauto.
    + rewrite elem_of_keys_delete. tauto.
  - simpl. split; [|tauto]. intros Hc. split; [done|]. intros ->.
    apply has_true in Hc. congruence.
Qed.

Lemma member_join sid r u n h c r' :
  member c r' (on_join_room sid r u n h).1 ↔ (r' = r ∧ c = sid) ∨ member c r' h.
Proof.
  unfold member, connections. unfold room_users at 1. rewrite rooms_join.
  case_decide as Heq; simpl.
  - subst r'. rewrite elem_of_keys_set. tauto.
  - unfold room_users. tauto.
Qed.

Lemma member_leave sid r h c r' :
  member c r' (on_leave_room sid r h).1 ↔ member c r' h ∧ ¬ (r' = r ∧ c = sid).
Proof.
  unfold member, connections. unfold room_users at 1. rewrite rooms_leave.
  case_decide as Heq.
  - subst r'. rewrite keys_after_removal. unfold room_users. tauto.
  - unfold room_users. tauto.
Qed.

Lemma member_disconnect sid h c r :
  NoDup (JSMap.keys (rooms h)) →
  member c r (on_disconnect sid h).1 ↔ member c r h ∧ c ≠ sid.
Proof.
  intros Hnd. unfold member, connections. unfold room_users at 1.
  rewrite rooms_disconnect by done. apply keys_after_removal.
Qed.

(** *** Invariants of the hub *)

Lemma Forall_set {V} (P : string * V → Prop) k v (m : list (string * V)) :
  Forall P m → P (k, v) → Forall P (JSMap.set k v m).
Proof.
  intros Hm Hv. induction Hm as [|[k' v'] m Hx Hm IH]; simpl.
  - by constructor.
  - destruct (String.eqb_spec k' k) as [->|Hne]; by constructor.
Qed.

Lemma Forall_delete {V} (P : string * V → Prop) k (m : list (string * V)) :
  Forall P m → Forall P (JSMap.delete k m).
Proof.
  induction 1 as [|[k' v'] m Hx Hm IH]; simpl; [done|].
  destruct (String.eqb k' k); [done | by constructor].
Qed.

Lemma set_nonempty {V} k v (m : list (string * V)) : JSMap.set k v m ≠ [].
Proof. destruct m as [|[k' v'] m]; simpl; [done|]. by destruct (String.eqb k' k). Qed.

Lemma disconnect_loop_ok sid a entries :
  Forall entry_ok entries → Forall entry_ok (disconnect_loop sid a entries).1.
Proof.
  induction 1 as [|[k users] rest [Hx Hd] Hm IH]; simpl; [done|].
  destruct (disconnect_loop sid a rest) as [rest' out]. simpl in IH.
  destruct (JSMap.get sid users); [|by constructor].
  destruct (Nat.eqb _ 0) eqn:Hsz; simpl; [done|].
  constructor; [|done]. split; simpl.
  - intros Hnil. by rewrite Hnil in Hsz.
  - by apply NoDup_keys_delete.
Qed.

Lemma entry_ok_get h r users :
  Forall entry_ok (rooms h) → JSMap.get r (rooms h) = Some users →
  users ≠ [] ∧ NoDup (JSMap.keys users).
Proof.
  intros Hall Hget. apply get_Some_elem_of in Hget.
  rewrite Forall_forall in Hall. apply (Hall _ Hget).
Qed.

Lemma hub_ok_dispatch h i : hub_ok h → hub_ok (dispatch h i).1.
Proof.
  intros (Hnd & Hne & Hsync). unfold dispatch.
  destruct (event i) as [|r u n|r co l u|r p u n|r l u|r co l u| |r]; try done.
  - (* connection *)
    split_and!; [done..|]. intros r c. unfold member. simpl.
    fold (member c r h). rewrite SocketIOFacts.elem_of_members_connect.
    destruct (Hsync r c) as [H1 H2]. split; [tauto|].
    intros [[-> ->]|H]; [by right | by apply H2].
  - (* join-room *)
    split_and!.
    + unfold on_join_room, JSMap.has. simpl.
      destruct (JSMap.get r (rooms h)) eqn:Hr; simpl.
      * rewrite Hr. by apply NoDup_keys_set.
      * rewrite get_set_eq. by do 2 apply NoDup_keys_set.
    + unfold on_join_room, JSMap.has. simpl.
      destruct (JSMap.get r (rooms h)) as [users|] eqn:Hr; simpl.
      * rewrite Hr. apply Forall_set; [done|].
        destruct (entry_ok_get h r users Hne Hr) as [_ Hd].
        split; [apply set_nonempty | by apply NoDup_keys_set].
      * rewrite get_set_eq, set_set. apply Forall_set; [done|].
        split; [apply set_nonempty | apply NoDup_keys_set; constructor].
    + intros r' c. rewrite member_join. simpl.
      rewrite SocketIOFacts.elem_of_members_join.
      destruct (Hsync r' c) as [H1 H2]. tauto.
  - (* disconnect *)
    split_and!.
    + unfold on_disconnect.
      pose proof (disconnect_loop_keys (socketId i)
                    (SocketIO.leave_all (socketId i) (adapter h)) (rooms h)) as Hs.
      destruct (disconnect_loop _ _ _). by eapply sublist_NoDup.
    + unfold on_disconnect.
      pose proof (disconnect_loop_ok (socketId i)
                    (SocketIO.leave_all (socketId i) (adapter h)) (rooms h) Hne) as Hs.
      by destruct (disconnect_loop _ _ _).
    + intros r c. rewrite member_disconnect by done.
      assert (Ha : adapter (on_disconnect (socketId i) h).1
                   = SocketIO.leave_all (socketId i) (adapter h)).
      { unfold on_disconnect. by destruct (disconnect_loop _ _ _). }
      rewrite Ha, SocketIOFacts.elem_of_members_leave_all.
      destruct (Hsync r c) as [H1 H2]. tauto.
  - (* leave-room *)
    split_and!.
    + unfold on_leave_room.
      destruct (JSMap.get r (rooms h)) as [users|]; [|done].
      destruct (JSMap.get (socketId i) users); [|done].
      destruct (Nat.eqb _ 0); simpl.
      * by apply NoDup_keys_delete, NoDup_keys_set.
      * by apply NoDup_keys_set.
    + unfold on_leave_room.
      destruct (JSMap.get r (rooms h)) as [users|] eqn:Hr; [|done].
      destruct (JSMap.get (socketId i) users); [|done].
      destruct (Nat.eqb _ 0) eqn:Hsz; simpl.
      * rewrite delete_set. by apply Forall_delete.
      * apply Forall_set; [done|].
        destruct (entry_ok_get h r users Hne Hr) as [_ Hd]. split; simpl.
        -- intros Hnil. by rewrite Hnil in Hsz.
        -- by apply NoDup_keys_delete.
    + intros r' c. rewrite member_leave.
      assert (Ha : adapter (on_leave_room (socketId i) r h).1
                   = SocketIO.leave (socketId i) r (adapter h)).
      { unfold on_leave_room.
        destruct (JSMap.get r (rooms h)) as [users|]; [|done].
        destruct (JSMap.get (socketId i) users); [|done].
        by destruct (Nat.eqb _ 0). }
      rewrite Ha, SocketIOFacts.elem_of_members_leave.
      destruct (Hsync r' c) as [H1 H2]. tauto.
Qed.

Lemma hub_ok_run history : hub_ok (run history).
Proof.
  induction history as [|i history IH] using rev_ind.
  - split_and!; [constructor | constructor |].
    intros r c. unfold member, connections, room_users, SocketIO.members. simpl.
    rewrite lookup_empty. simpl. set_solver.
  - rewrite run_snoc. by apply hub_ok_dispatch.
Qed.

Lemma NoDup_connections h r : hub_ok h → NoDup (connections r h).
Proof.
  intros (_ & Hall & _). unfold connections, room_users.
  destruct (JSMap.get r (rooms h)) as [users|] eqn:Hr; simpl; [|constructor].
  by destruct (entry_ok_get h r users Hall Hr).
Qed.

End ServerFacts.

(** ** The hub's properties *)

Module ServerSpec.
Import Server JSMapFacts ServerFacts.

Implicit Types (h : Hub) (c sid r : string) (i : Input).

(** A relay leaves the hub as it is, and is neither a join nor a departure. *)
Ltac relay_keeps_members :=
  solve [ split;
          [ intros ?; right; split; [done | by intros [_ [?|?]]]
          | by intros [[_ (? & ? & ?)]|[? _]] ] ].

(** Membership after one more event. *)
Lemma member_dispatch h i c r :
  hub_ok h →
  member c r (dispatch h i).1 ↔ joins c r i ∨ (member c r h ∧ ¬ departs c r i).
Proof.
  intros (Hnd & _ & _). unfold dispatch, joins, departs.
  destruct (event i) as [|r0 u n|r0 co l u|r0 p u n|r0 l u|r0 co l u| |r0];
    cbv beta iota zeta; try relay_keeps_members.
  - rewrite member_join. split.
    + intros [[-> ->]|H]; [left; eauto|]. right. split; [done|]. by intros [_ [?|?]].
    + intros [[<- (u' & n' & [= <- _ _])]|[H _]]; eauto.
  - rewrite member_disconnect by done. split.
    + intros [H Hne]. right. split; [done|]. intros [Heq _]. congruence.
    + intros [[_ (? & ? & ?)]|[H Hnd']]; [done|]. split; [done|].
      intros ->. apply Hnd'. eauto.
  - rewrite member_leave. split.
    + intros [H Hne]. right. split; [done|]. intros [Heq [[= ->]|?]]; [|done].
      apply Hne. eauto.
    + intros [[_ (? & ? & ?)]|[H Hnd']]; [done|]. split; [done|].
      intros [-> ->]. apply Hnd'. eauto.
Qed.

Lemma joined_and_still_in_snoc history i r c :
  joined_and_still_in (history ++ [i]) r c ↔
  joins c r i ∨ (joined_and_still_in history r c ∧ ¬ departs c r i).
Proof.
  split.
  - intros (pre & j & post & Heq & Hj & Hpost).
    destruct post as [|y post _] using rev_ind.
    + apply app_inj_tail in Heq as [_ ->]. by left.
    + right. rewrite app_comm_cons, app_assoc in Heq.
      apply app_inj_tail in Heq as [-> ->]. split.
      * exists pre, j, post. split_and!; [done..|].
        intros k Hk. apply Hpost. rewrite elem_of_app. by left.
      * apply Hpost. rewrite elem_of_app, list_elem_of_singleton. by right.
  - intros [Hj|[(pre & j & post & -> & Hj & Hpost) Hi]].
    + exists history, i, []. split_and!; [done..|]. by intros k ?%elem_of_nil.
    + exists pre, j, (post ++ [i]). split_and!; [by rewrite <- app_assoc|done|].
      intros k [Hk| ->%list_elem_of_singleton]%elem_of_app; auto.
Qed.

(** C1. Membership consistency: after any history of events, the connections
    the registry lists for a room are exactly those that have joined the
    room and have not since left it or disconnected; each of them is listed
    once, with one participant record. *)
Theorem membership_consistency history r :
  (∀ c, c ∈ connections r (run history) ↔ joined_and_still_in history r c)
  ∧ NoDup (connections r (run history))
  ∧ length (listParticipants r (run history)) = length (connections r (run history)).
Proof.
  split; [|split; [apply NoDup_connections, hub_ok_run|]].
  - intros c. induction history as [|i history IH] using rev_ind.
    + split; [by intros ?%elem_of_nil|].
      intros (pre & j & post & Heq & _). by destruct pre.
    + rewrite run_snoc, joined_and_still_in_snoc, <- IH.
      apply member_dispatch, hub_ok_run.
  - unfold listParticipants, connections, JSMap.values, JSMap.keys.
    by rewrite !length_fmap.
Qed.

(** *** The Socket.IO rooms against the registry *)

Lemma existsb_eqb s (l : list string) : existsb (String.eqb s) l = true ↔ s ∈ l.
Proof.
  rewrite existsb_exists. split.
  - intros (x & Hin & ->%String.eqb_eq). by apply list_elem_of_In.
  - intros Hin. exists s. split; [by apply list_elem_of_In | apply String.eqb_refl].
Qed.

Lemma net_snoc history i : net (history ++ [i]) = net_step (net history) i.
Proof. unfold net. by rewrite fold_left_app. Qed.

Lemma elem_of_online_snoc history i c :
  c ∈ online (history ++ [i]) ↔
  (event i = Connect ∧ c = socketId i)
  ∨ (c ∈ online history ∧ ¬ (event i = Disconnect ∧ c = socketId i)).
Proof.
  unfold online. rewrite net_snoc. unfold net_step.
  destruct (event i); simpl;
    try (split; [intros H; right; split; [done|by intros [? _]]
                | by intros [[? _]|[? _]]]).
  - rewrite elem_of_cons. split.
    + intros [->|H]; [by left|]. right. split; [done|]. by intros [? _].
    + intros [[_ ->]|[H _]]; [by left | by right].
  - rewrite list_elem_of_In, filter_In, <- list_elem_of_In, negb_true_iff.
    split.
    + intros [H Hne]. right. split; [done|]. intros [_ ->].
      by rewrite String.eqb_refl in Hne.
    + intros [[? _]|[H Hne]]; [done|]. split; [done|].
      apply String.eqb_neq. intros ->. by apply Hne.
Qed.

Lemma from_connected_snoc history i :
  from_connected (history ++ [i]) = true →
  from_connected history = true
  ∧ (event i ≠ Connect → socketId i ∈ online history).
Proof.
  unfold from_connected, online. rewrite net_snoc. unfold net_step.
  destruct (event i); simpl; rewrite ?andb_true_iff, ?existsb_eqb; tauto.
Qed.

Lemma apart_from_snoc ids history i :
  apart_from ids (history ++ [i]) ↔
  apart_from ids history
  ∧ socketId i ∈ ids ∧ ∀ r, named_room (event i) = Some r → r ∉ ids.
Proof. unfold apart_from. by rewrite Forall_app, Forall_singleton. Qed.

Lemma rooms_apart_from history :
  rooms_apart history = true → apart_from (map socketId history) history.
Proof.
  unfold rooms_apart, apart_from. rewrite forallb_forall, Forall_forall.
  intros Hall i Hi. split.
  - apply list_elem_of_fmap. by exists i.
  - intros r Hr. specialize (Hall i (proj1 (list_elem_of_In _ _) Hi)).
    rewrite Hr in Hall. apply negb_true_iff in Hall.
    intros Hin%existsb_eqb. congruence.
Qed.

Lemma online_in_ids ids history :
  apart_from ids history → ∀ c, c ∈ online history → c ∈ ids.
Proof.
  induction history as [|i history IH] using rev_ind; intros Hap c.
  - by intros ?%elem_of_nil.
  - apply apart_from_snoc in Hap as (Hap & Hi & _).
    rewrite elem_of_online_snoc. intros [[_ ->]|[H _]]; [done | by apply IH].
Qed.

(** A room named after one of the ids has no participant. *)
Lemma no_member_in_ids ids history :
  apart_from ids history → ∀ r c, r ∈ ids → ¬ member c r (run history).
Proof.
  induction history as [|i history IH] using rev_ind; intros Hap r c Hr.
  - by intros ?%elem_of_nil.
  - apply apart_from_snoc in Hap as (Hap & _ & Hroom).
    rewrite run_snoc, member_dispatch by apply hub_ok_run.
    intros [[_ (u & n & He)]|[H _]].
    + apply (Hroom r); [by rewrite He | done].
    + by apply (IH Hap r c).
Qed.

Lemma adapter_dispatch h i c r :
  c ∈ SocketIO.members r (adapter (dispatch h i).1) ↔
  match event i with
  | Connect => (r = socketId i ∧ c = socketId i) ∨ c ∈ SocketIO.members r (adapter h)
  | JoinRoom r0 _ _ =>
      (r = r0 ∧ c = socketId i) ∨ c ∈ SocketIO.members r (adapter h)
  | LeaveRoom r0 =>
      c ∈ SocketIO.members r (adapter h) ∧ ¬ (r = r0 ∧ c = socketId i)
  | Disconnect => c ∈ SocketIO.members r (adapter h) ∧ c ≠ socketId i
  | _ => c ∈ SocketIO.members r (adapter h)
  end.
Proof.
  unfold dispatch.
  destruct (event i) as [|r0 u n|r0 co l u|r0 p u n|r0 l u|r0 co l u| |r0];
    cbv beta iota zeta; try done.
  - apply SocketIOFacts.elem_of_members_connect.
  - apply SocketIOFacts.elem_of_members_join.
  - assert (Ha : adapter (on_disconnect (socketId i) h).1
                 = SocketIO.leave_all (socketId i) (adapter h)).
    { unfold on_disconnect. by destruct (disconnect_loop _ _ _). }
    rewrite Ha. apply SocketIOFacts.elem_of_members_leave_all.
  - assert (Ha : adapter (on_leave_room (socketId i) r0 h).1
                 = SocketIO.leave (socketId i) r0 (adapter h)).
    { unfold on_leave_room.
      destruct (JSMap.get r0 (rooms h)) as [users|]; [|done].
      destruct (JSMap.get (socketId i) users); [|done].
      by destruct (Nat.eqb _ 0). }
    rewrite Ha. apply SocketIOFacts.elem_of_members_leave.
Qed.

(** With room ids and connection ids apart, a Socket.IO room holds the
    connections registered under its name and, when it is named after a
    connected socket, that socket. *)
Lemma strict_sync ids history :
  apart_from ids history →
  ∀ r c, c ∈ SocketIO.members r (adapter (run history)) ↔
         member c r (run history) ∨ (r = c ∧ c ∈ online history).
Proof.
  induction history as [|i history IH] using rev_ind; intros Hap r c.
  - unfold member, connections, room_users, SocketIO.members, online. simpl.
    rewrite lookup_empty. simpl. set_solver.
  - apply apart_from_snoc in Hap as (Hap & Hi & Hroom).
    pose proof (online_in_ids ids history Hap) as Hon.
    pose proof (adapter_dispatch (run history) i c r) as Had.
    pose proof (member_dispatch (run history) i c r (hub_ok_run history)) as Hm.
    pose proof (elem_of_online_snoc history i c) as Ho.
    pose proof (IH Hap r c) as IHrc. clear IH.
    assert (Hc : c ∈ online history → c ∈ ids) by apply Hon.
    rewrite run_snoc. unfold joins, departs in Hm.
    destruct (event i) as [|r0 u n|r0 co l u|r0 p u n|r0 l u|r0 co l u| |r0];
      rewrite Had, Hm, Ho, IHrc; clear Had Hm Ho IHrc.
    + naive_solver.
    + naive_solver.
    + naive_solver.
    + naive_solver.
    + naive_solver.
    + naive_solver.
    + naive_solver.
    + assert (Hr0 : r0 ∉ ids) by (by apply Hroom). naive_solver.
Qed.

(** The shape of what one event makes the hub emit. *)
Lemma disconnect_loop_out sid a entries :
  Forall (λ e, ∃ r users,
            target e = ToRoom r sid
            ∧ recipients e = SocketIO.broadcast sid r a
            ∧ (r, users) ∈ entries ∧ sid ∈ JSMap.keys users)
    (disconnect_loop sid a entries).2.
Proof.
  induction entries as [|[k users] rest IH]; simpl; [constructor|].
  destruct (disconnect_loop sid a rest) as [rest' out]. simpl in IH.
  assert (Hrest : Forall (λ e, ∃ r users0,
            target e = ToRoom r sid
            ∧ recipients e = SocketIO.broadcast sid r a
            ∧ (r, users0) ∈ (k, users) :: rest ∧ sid ∈ JSMap.keys users0) out).
  { eapply Forall_impl; [exact IH|]. intros e (r & users0 & Ht & Hr & Hin & Hs).
    exists r, users0. split_and!; [done..|by right|done]. }
  destruct (JSMap.get sid users) as [user|] eqn:Hu; [|done].
  assert (Hin : sid ∈ JSMap.keys users) by (apply elem_of_keys; by rewrite Hu).
  destruct (Nat.eqb _ 0); simpl;
    (constructor; [exists k, users; split_and!; [done..|by left|done] | done]).
Qed.

Lemma dispatch_out h i :
  hub_ok h →
  Forall (λ e,
      match target e with
      | ToRoom r sender =>
          sender = socketId i
          ∧ recipients e
            = SocketIO.broadcast (socketId i) r (adapter (dispatch h i).1)
          ∧ (named_room (event i) = Some r
             ∨ (event i = Disconnect ∧ member (socketId i) r h))
      | ToSocket s => s = socketId i ∧ ∃ r u n, event i = JoinRoom r u n
      end) (dispatch h i).2.
Proof.
  intros (Hnd & _ & _). unfold dispatch.
  destruct (event i) as [|r u n|r co l u|r p u n|r l u|r co l u| |r] eqn:Hev;
    cbv beta iota zeta.
  - constructor.
  - repeat constructor; simpl; eauto.
  - repeat constructor; simpl; eauto.
  - repeat constructor; simpl; eauto.
  - repeat constructor; simpl; eauto.
  - repeat constructor; simpl; eauto.
  - unfold on_disconnect.
    pose proof (disconnect_loop_out (socketId i)
                  (SocketIO.leave_all (socketId i) (adapter h)) (rooms h)) as Hout.
    destruct (disconnect_loop _ _ _) as [rooms' out]. simpl in *.
    eapply Forall_impl; [exact Hout|].
    intros e (r & users & -> & -> & Hin & Hs). split_and!; [done..|].
    right. split; [done|]. unfold member, connections, room_users.
    by rewrite (elem_of_get _ _ _ Hnd Hin).
  - unfold on_leave_room.
    destruct (JSMap.get r (rooms h)) as [users|]; [|constructor].
    destruct (JSMap.get (socketId i) users); [|constructor].
    destruct (Nat.eqb _ 0); repeat constructor; simpl; eauto.
Qed.

(** Whoever a broadcast reaches is registered in the room it is addressed
    to, or is the socket that room is named after. *)
Lemma recipients_within history i :
  Forall (λ e, ∀ r sender, target e = ToRoom r sender →
               recipients e
               ⊆ list_to_set (connections r (run (history ++ [i]))) ∪ {[r]})
    (emitted history i).
Proof.
  unfold emitted. eapply Forall_impl; [apply dispatch_out, hub_ok_run|].
  intros e He r sender Ht. cbv beta in He. rewrite Ht in He.
  destruct He as (_ & -> & _). rewrite <- run_snoc.
  destruct (hub_ok_run (history ++ [i])) as (_ & _ & Hsync).
  intros c [Hc _]%SocketIOFacts.elem_of_broadcast.
  apply Hsync in Hc as [Hc| ->]; [|set_solver].
  apply elem_of_union_l, elem_of_list_to_set. exact Hc.
Qed.

(** With connected senders and room ids apart from connection ids, a
    broadcast reaches exactly the connections registered in the room it is
    addressed to, but for the sender. *)
Lemma recipients_exact ids history i :
  from_connected (history ++ [i]) = true →
  apart_from ids (history ++ [i]) →
  Forall (λ e, ∀ r sender, target e = ToRoom r sender →
               recipients e
               = list_to_set (connections r (run (history ++ [i])))
                 ∖ {[socketId i]})
    (emitted history i).
Proof.
  intros Hfc Hap.
  pose proof (strict_sync ids _ Hap) as Hsync.
  pose proof (no_member_in_ids ids _ Hap) as Hnone.
  pose proof (online_in_ids ids _ Hap) as Hon.
  apply from_connected_snoc in Hfc as [_ Hsender].
  pose proof (apart_from_snoc ids history i) as [Hsplit _].
  destruct (Hsplit Hap) as (Hap0 & Hi & Hroom). clear Hsplit.
  unfold emitted. eapply Forall_impl; [apply dispatch_out, hub_ok_run|].
  intros e He r sender Ht. cbv beta in He. rewrite Ht in He.
  destruct He as (_ & -> & Horigin). rewrite <- run_snoc.
  assert (Hr : r ∉ ids).
  { destruct Horigin as [Hn|[_ Hm]]; [by apply Hroom|].
    intros Hr. by apply (no_member_in_ids ids history Hap0 r (socketId i)). }
  assert (Hself : socketId i ∈ online (history ++ [i])
                  ∨ ¬ member (socketId i) r (run (history ++ [i]))).
  { destruct Horigin as [Hn|[Hd _]].
    - left. apply elem_of_online_snoc. right. split.
      + apply Hsender. intros He. by rewrite He in Hn.
      + intros [Hd _]. by rewrite Hd in Hn.
    - right. rewrite run_snoc, member_dispatch by apply hub_ok_run.
      unfold joins, departs. rewrite Hd. naive_solver. }
  apply set_eq. intros c.
  rewrite SocketIOFacts.elem_of_broadcast, !Hsync, elem_of_difference,
    elem_of_list_to_set, elem_of_singleton.
  fold (member c r (run (history ++ [i]))).
  pose proof (Hnone (socketId i) c Hi) as Hnot.
  split.
  - intros [[Hm|[-> Hc]] Hnin]; [|by apply Hon in Hc].
    split; [done|]. intros ->. destruct Hself as [Ho|Hn]; [|done].
    apply Hnin. by right.
  - intros [Hm Hne]. split; [by left|].
    intros [Hm'|[Heq _]]; [done | by apply Hne].
Qed.

(** C2 (as the code has it). Join and notify: the joining connection alone
    is sent room-users, which lists the participants of the room after the
    joiner was inserted, the joiner included (appended when it is new, its
    record replaced in place when it rejoins); user-joined for the joiner is
    broadcast to the room, and when the events come from connected sockets
    and room ids are kept apart from connection ids it reaches exactly the
    connections that were in the room before, other than the joiner. *)
Theorem join_room_notifies history sid r u n t :
  let h := run history in
  let i := mkInput t sid (JoinRoom r u n) in
  let h' := run (history ++ [i]) in
  (∃ to,
     emitted history i =
       [ mkEmission (ToRoom r sid) to (UserJoined u n sid);
         mkEmission (ToSocket sid) {[sid]} (RoomUsers (listParticipants r h')) ]
     ∧ (from_connected (history ++ [i]) = true →
        rooms_apart (history ++ [i]) = true →
        to = list_to_set (connections r h) ∖ {[sid]}))
  ∧ mkParticipant u n ∈ listParticipants r h'
  ∧ listParticipants r h'
    = JSMap.values (JSMap.set sid (mkParticipant u n) (room_users r h))
  ∧ match JSMap.get sid (room_users r h) with
    | None => listParticipants r h' = listParticipants r h ++ [mkParticipant u n]
    | Some _ => length (listParticipants r h') = length (listParticipants r h)
    end.
Proof.
  intros h i h'.
  assert (Hl : listParticipants r h' =
               JSMap.values (JSMap.set sid (mkParticipant u n) (room_users r h))).
  { unfold h', listParticipants. unfold room_users at 1.
    rewrite run_snoc. unfold dispatch. cbv beta iota zeta. simpl event.
    cbv beta iota. rewrite rooms_join. by rewrite decide_True. }
  assert (He : emitted history i =
       [ mkEmission (ToRoom r sid) (SocketIO.broadcast sid r (adapter h'))
           (UserJoined u n sid);
         mkEmission (ToSocket sid) {[sid]} (RoomUsers (listParticipants r h')) ]).
  { unfold h', listParticipants, room_users. rewrite run_snoc. reflexivity. }
  split_and!.
  - eexists. split; [exact He|]. intros Hfc Hap%rooms_apart_from.
    pose proof (recipients_exact _ history i Hfc Hap) as Hex.
    rewrite He in Hex. apply Forall_cons in Hex as [Hex _].
    pose proof (Hex r sid eq_refl) as Hrec. cbn [recipients] in Hrec.
    rewrite Hrec. fold h'. apply set_eq. intros c.
    rewrite !elem_of_difference, !elem_of_list_to_set, elem_of_singleton.
    fold (member c r h') (member c r h).
    assert (Hm : member c r h' ↔ c = sid ∨ member c r h).
    { unfold h'. rewrite run_snoc. unfold dispatch, i. cbn [event socketId].
      rewrite member_join. fold h. tauto. }
    rewrite elem_of_singleton. change (socketId i) with sid. tauto.
  - rewrite Hl. eapply elem_of_values, get_set_eq.
  - exact Hl.
  - rewrite Hl. destruct (JSMap.get sid (room_users r h)) eqn:Hget.
    + unfold JSMap.values, listParticipants, JSMap.values.
      rewrite !length_fmap. by eapply length_set_present.
    + by apply values_set_fresh.
Qed.

Lemma join_room_notifies_witness :
  let history := [mkInput 0 "A" Connect;
                  mkInput 1 "A" (JoinRoom "r1" "u1" "Alice");
                  mkInput 2 "B" Connect] in
  let i := mkInput 3 "B" (JoinRoom "r1" "u2" "Bob") in
  (from_connected (history ++ [i]) = true ∧ rooms_apart (history ++ [i]) = true)
  ∧ ∃ to,
      emitted history i =
        [ mkEmission (ToRoom "r1" "B") to (UserJoined "u2" "Bob" "B");
          mkEmission (ToSocket "B") {["B"]}
            (RoomUsers (listParticipants "r1" (run (history ++ [i])))) ]
      ∧ to = list_to_set (connections "r1" (run history)) ∖ {["B"]}.
Proof.
  cbv zeta. split; [split; reflexivity|].
  destruct (join_room_notifies
              [mkInput 0 "A" Connect; mkInput 1 "A" (JoinRoom "r1" "u1" "Alice");
               mkInput 2 "B" Connect] "B" "r1" "u2" "Bob" 3)
    as [(to & He & Hto) _].
  exists to. split; [exact He|]. apply Hto; reflexivity.
Defined.

(** C2, as stated, fails: with A ({u1, Alice}) in room r1, when B ({u2, Bob})
    joins r1 the room-users sent to B lists Alice and Bob, not Alice alone. *)
Lemma join_room_users_includes_joiner :
  let history := [mkInput 0 "A" Connect;
                  mkInput 0 "A" (JoinRoom "r1" "u1" "Alice");
                  mkInput 1 "B" Connect] in
  let i := mkInput 1 "B" (JoinRoom "r1" "u2" "Bob") in
  listParticipants "r1" (run history) = [mkParticipant "u1" "Alice"]
  ∧ emitted history i =
      [ mkEmission (ToRoom "r1" "B") {["A"]} (UserJoined "u2" "Bob" "B");
        mkEmission (ToSocket "B") {["B"]}
          (RoomUsers [mkParticipant "u1" "Alice"; mkParticipant "u2" "Bob"]) ]
  ∧ ¬ mkEmission (ToSocket "B") {["B"]} (RoomUsers [mkParticipant "u1" "Alice"])
        ∈ emitted history i.
Proof.
  assert (He : emitted [mkInput 0 "A" Connect;
                        mkInput 0 "A" (JoinRoom "r1" "u1" "Alice");
                        mkInput 1 "B" Connect]
                 (mkInput 1 "B" (JoinRoom "r1" "u2" "Bob")) =
      [ mkEmission (ToRoom "r1" "B") {["A"]} (UserJoined "u2" "Bob" "B");
        mkEmission (ToSocket "B") {["B"]}
          (RoomUsers [mkParticipant "u1" "Alice"; mkParticipant "u2" "Bob"]) ])
    by (vm_compute; reflexivity).
  cbv zeta. split_and!; [reflexivity | exact He |].
  rewrite He. intros [H|[H|H%elem_of_nil]%elem_of_cons]%elem_of_cons; [| |done].
  - discriminate H.
  - discriminate H.
Qed.

Lemma last_one_out h sid r :
  connections r h = [sid] → JSMap.get r (rooms h) ≫= after_removal sid = None.
Proof.
  unfold connections, room_users, JSMap.keys.
  destruct (JSMap.get r (rooms h)) as [users|]; simpl; [|done].
  destruct users as [|[k p] [|? ?]]; csimpl; try done.
  intros [= ->]. unfold after_removal, JSMap.has. simpl.
  by rewrite String.eqb_refl.
Qed.

(** C3. Room garbage collection: after any history of events every entry of
    the registry has at least one participant; and when the only participant
    of a room leaves it or disconnects, the room is no longer a key of the
    registry and listing its participants gives the empty list. *)
Theorem room_garbage_collection history :
  Forall (λ entry, 0 < JSMap.size entry.2) (rooms (run history))
  ∧ ∀ sid r t ev,
      connections r (run history) = [sid] →
      ev = LeaveRoom r ∨ ev = Disconnect →
      let h' := run (history ++ [mkInput t sid ev]) in
      JSMap.has r (rooms h') = false
      ∧ (r ∉ JSMap.keys (rooms h'))
      ∧ listParticipants r h' = [].
Proof.
  destruct (hub_ok_run history) as (Hnd & Hall & _). split.
  - eapply Forall_impl; [exact Hall|]. intros [k users] [Hne _]. simpl in *.
    destruct users; [done | simpl; lia].
  - intros sid r t ev Hone Hev h'.
    assert (Hget : JSMap.get r (rooms h') = None).
    { unfold h'. rewrite run_snoc. unfold dispatch. simpl.
      destruct Hev as [-> | ->].
      - rewrite rooms_leave, decide_True by done. by apply last_one_out.
      - rewrite rooms_disconnect by done. by apply last_one_out. }
    split_and!.
    + unfold JSMap.has. by rewrite Hget.
    + by apply not_elem_of_keys.
    + unfold listParticipants, room_users. by rewrite Hget.
Qed.

Lemma room_garbage_collection_witness :
  let history := [mkInput 0 "A" (JoinRoom "r1" "u1" "Alice")] in
  connections "r1" (run history) = ["A"]
  ∧ JSMap.has "r1" (rooms (run (history ++ [mkInput 1 "A" (LeaveRoom "r1")]))) = false
  ∧ listParticipants "r1" (run (history ++ [mkInput 2 "A" Disconnect])) = [].
Proof.
  cbv zeta. split; [reflexivity|]. split.
  - eapply (proj2 (room_garbage_collection _) "A" "r1" 1 (LeaveRoom "r1"));
      [reflexivity | by left].
  - eapply (proj2 (room_garbage_collection _) "A" "r1" 2 Disconnect);
      [reflexivity | by right].
Defined.




(** The scenarios of the specification, run on the hub. *)
Example scenario_relay :
  emitted [mkInput 0 "A" Connect;
           mkInput 0 "A" (JoinRoom "r1" "u1" "Alice");
           mkInput 1 "B" Connect;
           mkInput 1 "B" (JoinRoom "r1" "u2" "Bob")]
          (mkInput 2 "B" (CodeChange "r1" "x=1" "python" "u2")) =
    [mkEmission (ToRoom "r1" "B") {["A"]} (CodeUpdate "x=1" "python" "u2" 2)].
Proof. vm_compute. reflexivity. Qed.

Example scenario_departure :
  let history := [mkInput 0 "A" Connect;
                  mkInput 0 "A" (JoinRoom "r1" "u1" "Alice");
                  mkInput 1 "B" Connect;
                  mkInput 1 "B" (JoinRoom "r1" "u2" "Bob")] in
  let i := mkInput 3 "A" Disconnect in
  emitted history i = [mkEmission (ToRoom "r1" "A") {["B"]} (UserLeft "u1" "Alice" "A")]
  ∧ listParticipants "r1" (run (history ++ [i])) = [mkParticipant "u2" "Bob"].
Proof. split; vm_compute; reflexivity. Qed.

Example scenario_last_leaver :
  let h := run [mkInput 0 "A" Connect;
                mkInput 0 "A" (JoinRoom "r1" "u1" "Alice");
                mkInput 1 "B" Connect;
                mkInput 1 "B" (JoinRoom "r1" "u2" "Bob");
                mkInput 3 "A" Disconnect;
                mkInput 4 "B" (LeaveRoom "r1")] in
  listParticipants "r1" h = [] ∧ rooms h = [].
Proof. split; reflexivity. Qed.

(** A socket is in the room named after it from the moment it connects: an
    event for the room named "A" reaches A, which is registered nowhere. *)
Example own_room_receives :
  let history := [mkInput 0 "A" Connect; mkInput 1 "B" Connect] in
  emitted history (mkInput 2 "B" (CodeChange "A" "x=1" "python" "u2")) =
    [mkEmission (ToRoom "A" "B") {["A"]} (CodeUpdate "x=1" "python" "u2" 2)]
  ∧ connections "A" (run history) = [].
Proof. split; [vm_compute|]; reflexivity. Qed.




(** C7, as stated, fails: a connection that joins a second room without
    leaving the first is registered in both. *)
Lemma connection_in_two_rooms :
  let h := run [mkInput 0 "A" (JoinRoom "r1" "u1" "Alice");
                mkInput 1 "A" (JoinRoom "r2" "u1" "Alice")] in
  member "A" "r1" h ∧ member "A" "r2" h ∧ "r1" ≠ "r2".
Proof.
  cbv zeta. unfold member. split_and!; [| |done].
  - change ("A" ∈ ["A"]). apply list_elem_of_singleton. done.
  - change ("A" ∈ ["A"]). apply list_elem_of_singleton. done.
Qed.

Lemma in_no_other_room_spec sid r h :
  in_no_other_room sid r h = true → ∀ r', member sid r' h → r' = r.
Proof.
  unfold in_no_other_room, member, connections, room_users.
  rewrite forallb_forall. intros Hall r' Hin.
  destruct (JSMap.get r' (rooms h)) as [users|] eqn:Hr; simpl in Hin;
    [|by apply elem_of_nil in Hin].
  apply get_Some_elem_of, list_elem_of_In, Hall in Hr. simpl in Hr.
  apply has_true in Hin. rewrite Hin in Hr. simpl in Hr.
  rewrite orb_false_r in Hr. by apply String.eqb_eq.
Qed.

Lemma one_room_at_a_time_from_snoc h history i :
  one_room_at_a_time_from h (history ++ [i]) =
    one_room_at_a_time_from h history
    && match event i with
       | JoinRoom r _ _ => in_no_other_room (socketId i) r (run_from h history)
       | _ => true
       end.
Proof.
  revert h. induction history as [|j history IH]; intros h; simpl.
  - by rewrite andb_true_r.
  - by rewrite IH, andb_assoc.
Qed.

(** C7 (as the code has it). Single-room membership holds for the histories
    in which no connection asks to join a room while it is still registered
    in another one: after such a history each connection is registered in at
    most one room. *)
Theorem single_room_membership history :
  one_room_at_a_time history = true →
  ∀ c r1 r2, member c r1 (run history) → member c r2 (run history) → r1 = r2.
Proof.
  induction history as [|i history IH] using rev_ind.
  - intros _ c r1 r2 H. by apply elem_of_nil in H.
  - unfold one_room_at_a_time. rewrite one_room_at_a_time_from_snoc.
    intros [Hpre Hi]%andb_true_iff c r1 r2. fold (run history) in Hi.
    specialize (IH Hpre c r1 r2).
    rewrite run_snoc, !member_dispatch by apply hub_ok_run.
    intros [[Hc (u1 & n1 & He1)]|[H1 _]] [[Hc' (u2 & n2 & He2)]|[H2 _]].
    + congruence.
    + rewrite He1 in Hi. rewrite Hc in Hi. symmetry.
      by eapply in_no_other_room_spec.
    + rewrite He2 in Hi. rewrite Hc' in Hi.
      by eapply in_no_other_room_spec.
    + by apply IH.
Qed.

Lemma single_room_membership_witness :
  let history := [mkInput 0 "A" (JoinRoom "r1" "u1" "Alice");
                  mkInput 1 "B" (JoinRoom "r1" "u2" "Bob");
                  mkInput 2 "A" (LeaveRoom "r1");
                  mkInput 3 "A" (JoinRoom "r2" "u1" "Alice")] in
  one_room_at_a_time history = true
  ∧ ∀ c r1 r2, member c r1 (run history) → member c r2 (run history) → r1 = r2.
Proof.
  cbv zeta. split; [reflexivity|].
  apply single_room_membership. reflexivity.
Defined.

End ServerSpec.

(** ** The editor panel's properties *)

Module EditorSpec.
Import Editor.

Implicit Types (p : Props) (st : Panel) (v : string).

Lemma can_emit_true p :
  can_emit p = true ↔
  (∃ s, socket p = Some s ∧ connected s = true)
  ∧ truthy (roomId p) = true ∧ truthy (userId p) = true.
Proof.
  unfold can_emit. rewrite !andb_true_iff.
  destruct (socket p) as [s|]; split.
  - intros [[? ?] ?]. eauto.
  - intros [(s' & [= <-] & ?) [? ?]]. done.
  - intros [[? ?] ?]. done.
  - intros [(s' & ? & ?) _]. done.
Qed.

(** A change notification that finds the flag set only clears it. *)
Lemma handleCodeChange_echo p v st :
  isRemoteChangeRef st = true → handleCodeChange p v st = set_flag false st.
Proof. intros H. unfold handleCodeChange. by rewrite H. Qed.

(** C10. Local edits are applied locally regardless of connectivity: a
    change that is not a remote echo is handed to onCodeChange whatever the
    socket, room id and user id are; only with a connected socket and a room
    id and a user id is an emission scheduled, and otherwise nothing is. *)
Theorem local_edit_applied_regardless p v st :
  isRemoteChangeRef st = false →
  let st' := handleCodeChange p v st in
  code st' = v
  ∧ onCodeChangeCalls st' = onCodeChangeCalls st ++ [v]
  ∧ sent st' = sent st
  ∧ if can_emit p
    then ∃ s, socket p = Some s ∧ connected s = true
              ∧ truthy (roomId p) = true ∧ truthy (userId p) = true
              ∧ debounceTimerRef st' = Some (nextTimerId st)
              ∧ mkTimer (nextTimerId st) (now st + debounce_ms) (code_change_of p v)
                  ∈ timers st'
    else timers st' = timers st ∧ debounceTimerRef st' = debounceTimerRef st.
Proof.
  intros Hflag st'. unfold st', handleCodeChange. rewrite Hflag.
  destruct (can_emit p) eqn:Hp.
  - apply can_emit_true in Hp as ((s & Hs & Hc) & Hr & Hu).
    destruct (debounceTimerRef st) as [id|] eqn:Hid; simpl; rewrite ?Hid; simpl;
      (split_and!; [done..|]); exists s; (split_and!; [done..|]);
      apply elem_of_app; right; by apply list_elem_of_singleton.
  - done.
Qed.

Lemma local_edit_applied_regardless_witness :
  let p := mkProps None None None "javascript" in
  isRemoteChangeRef (panel0 "") = false
  ∧ code (handleCodeChange p "x=1" (panel0 "")) = "x=1"
  ∧ onCodeChangeCalls (handleCodeChange p "x=1" (panel0 "")) = ["x=1"]
  ∧ timers (handleCodeChange p "x=1" (panel0 "")) = [].
Proof.
  cbv zeta. split; [reflexivity|].
  destruct (local_edit_applied_regardless (mkProps None None None "javascript")
              "x=1" (panel0 "") eq_refl) as (Hc & Hcalls & _ & Ht & _).
  split_and!; [exact Hc | exact Hcalls | exact Ht].
Defined.

(** C6. Echo suppression: a code-update carrying the local user's id is
    dropped with no change of state; one from another user sets the flag and
    replaces the code, the change notification of a mounted editor finds the
    flag set and clears it, and nothing is sent or scheduled, now or when
    time passes. *)
Theorem echo_suppression p remoteCode remoteUserId st :
  let st' := handleCodeUpdate p remoteCode remoteUserId st in
  (remoteUserId = userId p → st' = st)
  ∧ (remoteUserId ≠ userId p →
       code st' = remoteCode
       ∧ sent st' = sent st
       ∧ timers st' = timers st
       ∧ debounceTimerRef st' = debounceTimerRef st
       ∧ (∀ t, sent (advance t st') = sent (advance t st))
       ∧ match editorRef st with
         | Some ed =>
             value <$> editorRef st' = Some remoteCode
             ∧ isRemoteChangeRef st' = false
         | None => editorRef st' = None ∧ isRemoteChangeRef st' = true
         end).
Proof.
  intros st'. unfold st', handleCodeUpdate. split.
  - intros Heq. by rewrite bool_decide_eq_true_2.
  - intros Hne. rewrite bool_decide_eq_false_2 by done.
    destruct st as [c calls flag ref [[val [pos|]]|] tms next clock out]; simpl;
      unfold setValue; rewrite ?handleCodeChange_echo by done; done.
Qed.

Lemma echo_suppression_witness :
  let p := mkProps (Some (mkSocketHandle true)) (Some "r1") (Some "u1") "python" in
  let st := mkPanel "a" [] false None (Some (mkMonaco "a" None)) [] 0 0 [] in
  (Some "u1" = userId p ∧ handleCodeUpdate p "b" (Some "u1") st = st)
  ∧ (Some "u2" ≠ userId p
     ∧ code (handleCodeUpdate p "b" (Some "u2") st) = "b"
     ∧ sent (handleCodeUpdate p "b" (Some "u2") st) = []
     ∧ timers (handleCodeUpdate p "b" (Some "u2") st) = []).
Proof.
  cbv zeta. split.
  - split; [reflexivity|].
    apply (proj1 (echo_suppression
      (mkProps (Some (mkSocketHandle true)) (Some "r1") (Some "u1") "python") "b"
      (Some "u1") (mkPanel "a" [] false None (Some (mkMonaco "a" None)) [] 0 0 []))).
    reflexivity.
  - assert (Hne : Some "u2" ≠ Some "u1") by discriminate.
    split; [exact Hne|].
    destruct (proj2 (echo_suppression
      (mkProps (Some (mkSocketHandle true)) (Some "r1") (Some "u1") "python") "b"
      (Some "u2") (mkPanel "a" [] false None (Some (mkMonaco "a" None)) [] 0 0 []))
      Hne) as (Hc & Hs & Ht & _).
    split_and!; [exact Hc | exact Hs | exact Ht].
Defined.

(** *** Debouncing *)

Lemma edit_first p st t v :
  timers st = [] → isRemoteChangeRef st = false → can_emit p = true →
  now st ≤ t →
  pending_edit p t v (sent st) (edit_at p st (t, v)).
Proof.
  intros Ht Hf Hp Hle.
  destruct st as [c calls flag ref [ed|] tms next clock out]; simpl in *; subst;
    unfold edit_at, handleCodeChange, advance, typed; simpl; rewrite Hp;
  exists next; destruct ref; simpl; rewrite app_nil_r, Nat.max_r by done; done.
Qed.

Lemma edit_next p st t v t' v' sent0 :
  can_emit p = true → pending_edit p t v sent0 st →
  t ≤ t' → t' < t + debounce_ms →
  pending_edit p t' v' sent0 (edit_at p st (t', v')).
Proof.
  intros Hp (id & Hnow & Hts & Href & Hsent & Hf) Hle Hlt.
  assert (Hdue : Nat.leb (t + debounce_ms) t' = false) by (apply Nat.leb_gt; lia).
  destruct st as [c calls flag ref [ed|] tms next clock out]; simpl in *; subst;
    unfold edit_at, handleCodeChange, advance, typed; simpl; rewrite Hp, Hdue;
    simpl; rewrite Nat.eqb_refl; simpl; exists next;
    rewrite app_nil_r, Nat.max_r by done; done.
Qed.

Lemma last_cons {A} (a d : A) (l : list A) : List.last (a :: l) d = List.last l a.
Proof.
  revert a d. induction l as [|b l IH]; intros a d; [done|].
  change (List.last (b :: l) d = List.last (b :: l) a). by rewrite !IH.
Qed.

Lemma edits_chained p es : ∀ st t v sent0,
  can_emit p = true → pending_edit p t v sent0 st → chained t es = true →
  pending_edit p (List.last es (t, v)).1 (List.last es (t, v)).2 sent0 (edits p es st).
Proof.
  induction es as [|[t' v'] es IH]; intros st t v sent0 Hp Hpend Hch; [done|].
  simpl in Hch. apply andb_true_iff in Hch as [[Hle Hlt]%andb_true_iff Hch].
  apply Nat.leb_le in Hle. apply Nat.ltb_lt in Hlt.
  pose proof (edit_next p st t v t' v' sent0 Hp Hpend Hle Hlt) as Hnext.
  specialize (IH _ _ _ _ Hp Hnext Hch). unfold edits in *. simpl fold_left.
  by rewrite last_cons.
Qed.

Lemma pending_edit_fires p t v sent0 st :
  pending_edit p t v sent0 st →
  sent st = sent0
  ∧ (∀ T, T < t + debounce_ms → sent (advance T st) = sent0)
  ∧ (∀ T, t + debounce_ms ≤ T →
       sent (advance T st) = sent0 ++ [code_change_of p v]
       ∧ timers (advance T st) = []).
Proof.
  intros (id & Hnow & Hts & Href & Hsent & Hf). split_and!; [done| |].
  - intros T HT. unfold advance. simpl. rewrite Hts, Hsent. simpl.
    replace (Nat.leb (t + debounce_ms) T) with false
      by (symmetry; apply Nat.leb_gt; lia).
    simpl. by rewrite app_nil_r.
  - intros T HT. unfold advance. simpl. rewrite Hts, Hsent. simpl.
    replace (Nat.leb (t + debounce_ms) T) with true
      by (symmetry; apply Nat.leb_le; lia).
    done.
Qed.

(** C5. Debounce coalescing: for one or more local edits, each less than
    the debounce delay after the one before it, nothing is emitted while the
    edits come in or before the delay has passed after the last one; once it
    has, exactly one code-change has been emitted, carrying the value of the
    last edit, and no timeout is left pending. *)
Theorem debounce_coalescing p st es t_last v_last :
  timers st = [] → isRemoteChangeRef st = false → can_emit p = true →
  one_window (now st) (es ++ [(t_last, v_last)]) = true →
  let st1 := edits p (es ++ [(t_last, v_last)]) st in
  sent st1 = sent st
  ∧ (∀ T, T < t_last + debounce_ms → sent (advance T st1) = sent st)
  ∧ (∀ T, t_last + debounce_ms ≤ T →
       sent (advance T st1) = sent st ++ [code_change_of p v_last]
       ∧ timers (advance T st1) = []).
Proof.
  intros Hts Hf Hp Hwin st1. apply pending_edit_fires. unfold st1.
  destruct es as [|[t0 v0] es]; simpl in Hwin;
    apply andb_true_iff in Hwin as [Hle%Nat.leb_le Hch].
  - by apply edit_first.
  - pose proof (edit_first p st t0 v0 Hts Hf Hp Hle) as H0.
    pose proof (edits_chained p _ _ _ _ _ Hp H0 Hch) as H1.
    by rewrite last_last in H1.
Qed.

Lemma debounce_coalescing_witness :
  let p := mkProps (Some (mkSocketHandle true)) (Some "r1") (Some "u1") "python" in
  let window := [(0, "a"); (100, "ab")] ++ [(250, "abc")] in
  (timers (panel0 "") = [] ∧ isRemoteChangeRef (panel0 "") = false
   ∧ can_emit p = true ∧ one_window (now (panel0 "")) window = true)
  ∧ sent (advance 549 (edits p window (panel0 ""))) = []
  ∧ sent (advance 550 (edits p window (panel0 ""))) = [code_change_of p "abc"].
Proof.
  cbv zeta.
  destruct (debounce_coalescing
              (mkProps (Some (mkSocketHandle true)) (Some "r1") (Some "u1") "python")
              (panel0 "") [(0, "a"); (100, "ab")] 250 "abc"
              eq_refl eq_refl eq_refl eq_refl) as (_ & Hbefore & Hafter).
  split; [by split_and!|]. split.
  - apply Hbefore. unfold debounce_ms. lia.
  - apply Hafter. unfold debounce_ms. lia.
Defined.

(** Two edits further apart than the delay are two emissions. *)
Example two_windows :
  let p := mkProps (Some (mkSocketHandle true)) (Some "r1") (Some "u1") "python" in
  sent (advance 1000 (edits p [(0, "a"); (400, "ab")] (panel0 ""))) =
    [code_change_of p "a"; code_change_of p "ab"].
Proof. reflexivity. Qed.

End EditorSpec.

(** ** The singleton socket's properties *)

Module SocketClientSpec.
Import SocketClient.

Lemma is_connected_false socket :
  is_connected socket = false ↔
  socket = None ∨ ∃ s, socket = Some s ∧ connected s = false.
Proof.
  destruct socket as [s|]; simpl; split; eauto.
  - intros [?|(s' & [= <-] & ?)]; done.
Qed.

(** C9. The emit helpers are silent without a connection: with no socket, or
    with one that is not connected, emitCodeChange, emitCursorChange and
    emitLanguageChange return without emitting and without an error, and so
    does leaveRoom with no socket; joinRoom creates the socket when there is
    none and emits whether or not it is connected. *)
Theorem emit_helpers_silent socket :
  (socket = None ∨ (∃ s, socket = Some s ∧ connected s = false) →
     (∀ r c l u, emitCodeChange r c l u socket = Returns socket)
     ∧ (∀ r pos u n, emitCursorChange r pos u n socket = Returns socket)
     ∧ (∀ r l u, emitLanguageChange r l u socket = Returns socket))
  ∧ (socket = None → ∀ r, leaveRoom r socket = Returns socket)
  ∧ (∀ env r u n, ∃ s,
       joinRoom env r u n socket = Returns (Some s)
       ∧ emitted s = outbox socket ++ [JoinRoomMsg r u n]
       ∧ connected s = is_connected socket).
Proof.
  split_and!.
  - intros H%is_connected_false.
    unfold emitCodeChange, emitCursorChange, emitLanguageChange. by rewrite H.
  - by intros ->.
  - intros env r u n. unfold joinRoom. destruct socket as [s|]; simpl; eauto.
Qed.

Lemma emit_helpers_silent_witness :
  let idle := Some (mkSocket "http://localhost:3000" false [] []) in
  emitCodeChange "r1" "x=1" "python" "u1" None = Returns None
  ∧ emitLanguageChange "r1" "python" "u1" idle = Returns idle
  ∧ leaveRoom "r1" None = Returns None.
Proof.
  cbv zeta. split_and!.
  - apply (proj1 (emit_helpers_silent None)). by left.
  - apply (proj1 (emit_helpers_silent
                    (Some (mkSocket "http://localhost:3000" false [] [])))).
    right. eexists. split; reflexivity.
  - apply (proj1 (proj2 (emit_helpers_silent None))). reflexivity.
Defined.

(** With a connected socket the helpers do emit, and leaveRoom emits on any
    socket, connected or not. *)
Example emitCodeChange_connected :
  emitCodeChange "r1" "x=1" "python" "u1" (Some (mkSocket "s" true [] [])) =
    Returns (Some (mkSocket "s" true [] [CodeChangeMsg "r1" "x=1" "python" "u1"])).
Proof. reflexivity. Qed.

Example joinRoom_creates_socket :
  joinRoom None "r1" "u1" "Alice" None =
    Returns (Some (mkSocket "http://localhost:3000" false
                     ["connect"; "disconnect"; "connect_error"; "reconnect"]
                     [JoinRoomMsg "r1" "u1" "Alice"])).
Proof. reflexivity. Qed.

End SocketClientSpec.

(** ** More about the hub: what the handlers keep and how they compose *)

Module ServerMore.
Import Server ServerNotions JSMapFacts ServerFacts.

Implicit Types (h : Hub) (c sid r : string) (i : Input).

(** The registry after a join, in one expression. *)
Lemma rooms_join_eq sid r u n h :
  rooms (on_join_room sid r u n h).1 =
    JSMap.set r (JSMap.set sid (mkParticipant u n) (room_users r h)) (rooms h).
Proof.
  unfold on_join_room, room_users, JSMap.has. simpl.
  destruct (JSMap.get r (rooms h)) as [users|] eqn:Hr; simpl.
  - by rewrite Hr.
  - by rewrite get_set_eq, set_set.
Qed.

(** X1. The two records of membership agree up to a socket's own room:
    after any history of events, every connection the registry lists for a
    room is a member of the Socket.IO room of that name, and that Socket.IO
    room holds nobody else, except possibly the socket whose id is the
    room's name. *)
Theorem adapter_covers_registry history r :
  list_to_set (connections r (run history))
    ⊆ SocketIO.members r (adapter (run history))
  ∧ SocketIO.members r (adapter (run history))
    ⊆ list_to_set (connections r (run history)) ∪ {[r]}.
Proof.
  destruct (hub_ok_run history) as (_ & _ & Hsync). split; intros c.
  - rewrite elem_of_list_to_set. apply Hsync.
  - intros [Hc| ->]%Hsync; [|set_solver].
    apply elem_of_union_l, elem_of_list_to_set. exact Hc.
Qed.

Lemma relay_keeps_hub h i : lifecycle i = false → (dispatch h i).1 = h.
Proof. unfold lifecycle, dispatch. by destruct (event i). Qed.

(** X2. Relays are transparent: the hub after a history is the hub after
    its joins, leaves and disconnects alone; code-change, cursor-change,
    language-change and run-code events never change who is where. *)
Theorem relays_leave_hub_alone history :
  run history = run (List.filter lifecycle history).
Proof.
  induction history as [|i history IH] using rev_ind; [done|].
  rewrite List.filter_app, run_snoc. simpl.
  destruct (lifecycle i) eqn:Hi.
  - by rewrite run_snoc, IH.
  - by rewrite app_nil_r, relay_keeps_hub.
Qed.

Lemma get_after_removal sid c (o : option (list (string * Participant))) :
  JSMap.get c (default [] (o ≫= after_removal sid)) =
    if decide (c = sid) then None else JSMap.get c (default [] o).
Proof.
  destruct o as [users|]; simpl; [|by case_decide].
  unfold after_removal. destruct (JSMap.has sid users) eqn:Hhas.
  - destruct (Nat.eqb _ 0) eqn:Hsz; simpl.
    + apply size_0 in Hsz. case_decide as Hc; [done|].
      by rewrite <- (get_delete_ne sid c users), Hsz.
    + case_decide as Hc; [subst; apply get_delete_eq | by apply get_delete_ne].
  - simpl. case_decide as Hc; [|done]. subst.
    unfold JSMap.has in Hhas. by destruct (JSMap.get sid users).
Qed.

(** The record a connection is registered under, after one more event. *)
Lemma registration_dispatch h i c r :
  hub_ok h →
  JSMap.get c (room_users r (dispatch h i).1) =
    match event i with
    | JoinRoom r0 u n =>
        if decide (r = r0 ∧ c = socketId i) then Some (mkParticipant u n)
        else JSMap.get c (room_users r h)
    | LeaveRoom r0 =>
        if decide (r = r0 ∧ c = socketId i) then None
        else JSMap.get c (room_users r h)
    | Disconnect =>
        if decide (c = socketId i) then None else JSMap.get c (room_users r h)
    | _ => JSMap.get c (room_users r h)
    end.
Proof.
  intros (Hnd & _ & _). unfold dispatch.
  destruct (event i) as [|r0 u n|r0 co l u|r0 p u n|r0 l u|r0 co l u| |r0];
    cbv beta iota zeta; try done.
  - unfold room_users at 1. rewrite rooms_join.
    destruct (decide (r = r0)) as [->|Hr]; simpl.
    + destruct (decide (c = socketId i)) as [->|Hc].
      * rewrite decide_True by done. apply get_set_eq.
      * rewrite decide_False by tauto. by apply get_set_ne.
    + by rewrite decide_False by tauto.
  - unfold room_users at 1. rewrite rooms_disconnect by done.
    apply get_after_removal.
  - unfold room_users at 1. rewrite rooms_leave.
    destruct (decide (r = r0)) as [->|Hr].
    + rewrite get_after_removal.
      destruct (decide (c = socketId i)) as [->|Hc].
      * by rewrite decide_True.
      * by rewrite decide_False by tauto.
    + by rewrite decide_False by tauto.
Qed.

(** X3. No event touches another connection's registration: whatever a
    connection sends, the record every other connection is registered under,
    in every room, stays as it was. *)
Theorem other_connections_untouched history i c r :
  c ≠ socketId i →
  JSMap.get c (room_users r (run (history ++ [i])))
  = JSMap.get c (room_users r (run history)).
Proof.
  intros Hc. rewrite run_snoc, registration_dispatch by apply hub_ok_run.
  destruct (event i); try done; by rewrite decide_False by tauto.
Qed.

Lemma other_connections_untouched_witness :
  let history := [mkInput 0 "A" (JoinRoom "r1" "u1" "Alice");
                  mkInput 1 "B" (JoinRoom "r1" "u2" "Bob")] in
  let i := mkInput 2 "B" Disconnect in
  "A" ≠ socketId i
  ∧ JSMap.get "A" (room_users "r1" (run (history ++ [i])))
    = JSMap.get "A" (room_users "r1" (run history)).
Proof.
  cbv zeta. assert (Hne : "A" ≠ "B") by discriminate.
  split; [exact Hne|].
  apply (other_connections_untouched _ (mkInput 2 "B" Disconnect) "A" "r1" Hne).
Defined.

Lemma registered_as_snoc history i r c p :
  registered_as (history ++ [i]) r c p ↔
  (socketId i = c ∧ event i = JoinRoom r (userId p) (userName p))
  ∨ (registered_as history r c p ∧ ¬ joins c r i ∧ ¬ departs c r i).
Proof.
  split.
  - intros (pre & j & post & Heq & Hc & Hj & Hpost).
    destruct post as [|y post _] using rev_ind.
    + apply app_inj_tail in Heq as [_ ->]. by left.
    + right. rewrite app_comm_cons, app_assoc in Heq.
      apply app_inj_tail in Heq as [-> ->]. split.
      * exists pre, j, post. split_and!; [done..|].
        intros k Hk. apply Hpost. rewrite elem_of_app. by left.
      * apply Hpost. rewrite elem_of_app, list_elem_of_singleton. by right.
  - intros [[Hc Hj]|[(pre & j & post & -> & Hc & Hj & Hpost) Hi]].
    + exists history, i, []. split_and!; [done..|]. by intros k ?%elem_of_nil.
    + exists pre, j, (post ++ [i]). split_and!; [by rewrite <- app_assoc|done..|].
      intros k [Hk| ->%list_elem_of_singleton]%elem_of_app; auto.
Qed.

(** X4. The latest join decides the identity: after any history, a
    connection is registered in a room under the user id and user name of
    its last join-room for that room, provided it has not left the room or
    disconnected since; otherwise it is not registered there. *)
Theorem identity_is_latest_join history r c p :
  JSMap.get c (room_users r (run history)) = Some p ↔ registered_as history r c p.
Proof.
  induction history as [|i history IH] using rev_ind.
  - split; [done|]. intros (pre & j & post & Heq & _). by destruct pre.
  - rewrite run_snoc, registered_as_snoc, <- IH,
      registration_dispatch by apply hub_ok_run.
    unfold joins, departs. destruct p as [pu pn]. simpl.
    destruct (event i) as [|r0 u n|r0 co l u|r0 po u n|r0 l u|r0 co l u| |r0].
    + split; [intros H; right; split_and!; [done|by intros [_ (?&?&?)]|by intros [_ [?|?]]]|].
      by intros [[_ ?]|[? _]].
    + case_decide as Hd.
      * destruct Hd as [-> ->]. split.
        -- intros [= -> ->]. by left.
        -- intros [[_ [= -> ->]]|(_ & Hnj & _)]; [done|].
           exfalso. apply Hnj. eauto.
      * split.
        -- intros H. right. split_and!; [done| |by intros [_ [?|?]]].
           intros [<- (u' & n' & [= <- _ _])]. tauto.
        -- intros [[<- [= <- _ _]]|[H _]]; [tauto|done].
    + split; [intros H; right; split_and!; [done|by intros [_ (?&?&?)]|by intros [_ [?|?]]]|].
      by intros [[_ ?]|[? _]].
    + split; [intros H; right; split_and!; [done|by intros [_ (?&?&?)]|by intros [_ [?|?]]]|].
      by intros [[_ ?]|[? _]].
    + split; [intros H; right; split_and!; [done|by intros [_ (?&?&?)]|by intros [_ [?|?]]]|].
      by intros [[_ ?]|[? _]].
    + split; [intros H; right; split_and!; [done|by intros [_ (?&?&?)]|by intros [_ [?|?]]]|].
      by intros [[_ ?]|[? _]].
    + case_decide as Hd.
      * subst c. split; [done|]. intros [[_ ?]|(_ & _ & Hnd)]; [done|].
        exfalso. apply Hnd. eauto.
      * split.
        -- intros H. right. split_and!; [done|by intros [_ (?&?&?)]|].
           intros [Heq _]. congruence.
        -- by intros [[_ ?]|[? _]].
    + case_decide as Hd.
      * destruct Hd as [-> ->]. split; [done|].
        intros [[_ ?]|(_ & _ & Hnd)]; [done|]. exfalso. apply Hnd. eauto.
      * split.
        -- intros H. right. split_and!; [done|by intros [_ (?&?&?)]|].
           intros [<- [[= <-]|?]]; [tauto|done].
        -- by intros [[_ ?]|[? _]].
Qed.

Lemma disconnect_loop_targets sid a entries :
  map target (disconnect_loop sid a entries).2 =
    map (λ r, ToRoom r sid)
      (List.filter (λ entry, JSMap.has sid entry.2) entries).*1.
Proof.
  induction entries as [|[k users] rest IH]; csimpl; [done|].
  destruct (disconnect_loop sid a rest) as [rest' out]. simpl in IH.
  unfold JSMap.has. destruct (JSMap.get sid users); csimpl; [|done].
  destruct (Nat.eqb _ 0); csimpl; by rewrite IH.
Qed.

Lemma disconnect_loop_packets sid a entries :
  Forall (λ e, ∃ k users user,
            (k, users) ∈ entries ∧ JSMap.get sid users = Some user
            ∧ target e = ToRoom k sid
            ∧ packet e = UserLeft (userId user) (userName user) sid)
    (disconnect_loop sid a entries).2.
Proof.
  induction entries as [|[k users] rest IH]; simpl; [constructor|].
  destruct (disconnect_loop sid a rest) as [rest' out]. simpl in IH.
  assert (Hrest : Forall (λ e, ∃ k0 users0 user,
            (k0, users0) ∈ (k, users) :: rest ∧ JSMap.get sid users0 = Some user
            ∧ target e = ToRoom k0 sid
            ∧ packet e = UserLeft (userId user) (userName user) sid) out).
  { eapply Forall_impl; [exact IH|]. intros e (k0 & users0 & user & Hin & H).
    exists k0, users0, user. split; [by right|done]. }
  destruct (JSMap.get sid users) as [user|] eqn:Hu; [|done].
  destruct (Nat.eqb _ 0); simpl;
    (constructor; [exists k, users, user; split_and!; [by left|done..] | done]).
Qed.

Lemma elem_of_rooms_of sid h r :
  NoDup (JSMap.keys (rooms h)) → r ∈ rooms_of sid h ↔ member sid r h.
Proof.
  intros Hnd. unfold rooms_of, member, connections, room_users.
  rewrite list_elem_of_fmap. split.
  - intros ([k users] & -> & Hin). apply list_elem_of_In, filter_In in Hin as [Hin Hhas].
    apply list_elem_of_In in Hin. simpl in *.
    rewrite (elem_of_get _ _ _ Hnd Hin). simpl. by apply has_true.
  - destruct (JSMap.get r (rooms h)) as [users|] eqn:Hr; simpl;
      [|by intros ?%elem_of_nil].
    intros Hin. exists (r, users). split; [done|].
    apply list_elem_of_In, filter_In. split.
    + by apply list_elem_of_In, get_Some_elem_of.
    + by apply has_true.
Qed.

(** X5. A disconnect clears the connection out of every room: afterwards it
    is registered nowhere; user-left is broadcast once for each room it was
    in, in the order of the registry, and to no other room, each time with
    the user id and user name it was registered under in that room. *)
Theorem disconnect_leaves_every_room history sid t :
  let h := run history in
  let i := mkInput t sid Disconnect in
  (∀ r, ¬ member sid r (run (history ++ [i])))
  ∧ map target (emitted history i) = map (λ r, ToRoom r sid) (rooms_of sid h)
  ∧ (∀ r, r ∈ rooms_of sid h ↔ member sid r h)
  ∧ Forall (λ e, ∃ r user,
              target e = ToRoom r sid
              ∧ JSMap.get sid (room_users r h) = Some user
              ∧ packet e = UserLeft (userId user) (userName user) sid)
      (emitted history i).
Proof.
  intros h i. destruct (hub_ok_run history) as (Hnd & _ & _). fold h in Hnd.
  split_and!.
  - intros r. rewrite run_snoc. unfold dispatch. simpl.
    rewrite member_disconnect by done. tauto.
  - unfold emitted, dispatch, rooms_of. fold h. simpl. unfold on_disconnect.
    pose proof (disconnect_loop_targets sid
                  (SocketIO.leave_all sid (adapter h)) (rooms h)) as Ht.
    by destruct (disconnect_loop _ _ _).
  - intros r. by apply elem_of_rooms_of.
  - unfold emitted, dispatch. fold h. simpl. unfold on_disconnect.
    pose proof (disconnect_loop_packets sid
                  (SocketIO.leave_all sid (adapter h)) (rooms h)) as Hp.
    destruct (disconnect_loop _ _ _) as [rooms' out]. simpl in *.
    eapply Forall_impl; [exact Hp|].
    intros e (k & users & user & Hin & Hu & Ht & Hpk).
    exists k, user. split_and!; [done| |done].
    unfold room_users. by rewrite (elem_of_get _ _ _ Hnd Hin).
Qed.

Lemma disconnect_loop_outsider sid a entries :
  List.filter (λ entry, JSMap.has sid entry.2) entries = [] →
  disconnect_loop sid a entries = (entries, []).
Proof.
  induction entries as [|[k users] rest IH]; simpl; [done|].
  unfold JSMap.has at 1. destruct (JSMap.get sid users); [done|].
  intros H. by rewrite IH.
Qed.

(** X6. A disconnect of a connection that is in no room changes nothing in
    the registry and notifies nobody. *)
Theorem disconnect_of_outsider history sid t :
  (∀ r, ¬ member sid r (run history)) →
  rooms (run (history ++ [mkInput t sid Disconnect])) = rooms (run history)
  ∧ emitted history (mkInput t sid Disconnect) = [].
Proof.
  intros Hout. destruct (hub_ok_run history) as (Hnd & _ & _).
  assert (Hnone : List.filter (λ entry, JSMap.has sid entry.2)
                    (rooms (run history)) = []).
  { destruct (List.filter _ _) as [|[k users] l] eqn:Hf; [done|].
    exfalso. apply (Hout k). apply elem_of_rooms_of; [done|].
    unfold rooms_of. rewrite Hf. by left. }
  rewrite run_snoc. unfold emitted, dispatch. simpl. unfold on_disconnect.
  by rewrite disconnect_loop_outsider.
Qed.

Lemma disconnect_of_outsider_witness :
  let history := [mkInput 0 "A" (JoinRoom "r1" "u1" "Alice")] in
  (∀ r, ¬ member "B" r (run history))
  ∧ rooms (run (history ++ [mkInput 1 "B" Disconnect])) = rooms (run history)
  ∧ emitted history (mkInput 1 "B" Disconnect) = [].
Proof.
  cbv zeta.
  assert (Hout : ∀ r, ¬ member "B" r
                         (run [mkInput 0 "A" (JoinRoom "r1" "u1" "Alice")])).
  { intros r. unfold member, connections, room_users.
    change (rooms (run [mkInput 0 "A" (JoinRoom "r1" "u1" "Alice")]))
      with [("r1", [("A", mkParticipant "u1" "Alice")])].
    cbn -[String.eqb]. destruct (String.eqb "r1" r); cbn.
    - intros [H|H]%elem_of_cons; [discriminate H | by apply elem_of_nil in H].
    - by intros ?%elem_of_nil. }
  split; [exact Hout|].
  exact (disconnect_of_outsider _ "B" 1 Hout).
Defined.

Lemma leave_of_outsider h sid r :
  ¬ member sid r h →
  rooms (on_leave_room sid r h).1 = rooms h ∧ (on_leave_room sid r h).2 = [].
Proof.
  unfold member, connections, room_users, on_leave_room. intros Hout.
  destruct (JSMap.get r (rooms h)) as [users|]; simpl in *; [|done].
  destruct (JSMap.get sid users) eqn:Hu; [|done].
  exfalso. apply Hout, elem_of_keys. by rewrite Hu.
Qed.

(** X7. Leaving is idempotent: a second leave-room for the same room by the
    same connection changes nothing in the registry and notifies nobody. *)
Theorem leave_room_twice history sid r t t' :
  let once := history ++ [mkInput t sid (LeaveRoom r)] in
  rooms (run (once ++ [mkInput t' sid (LeaveRoom r)])) = rooms (run once)
  ∧ emitted once (mkInput t' sid (LeaveRoom r)) = [].
Proof.
  intros once.
  assert (Hout : ¬ member sid r (run once)).
  { unfold once. rewrite run_snoc. unfold dispatch. simpl.
    rewrite member_leave. tauto. }
  rewrite run_snoc. unfold emitted, dispatch. simpl.
  by apply leave_of_outsider.
Qed.

(** X8. Join and leave undo each other: when a connection that is not in a
    room joins it and then leaves it, the registry is exactly what it was
    before, the order of rooms and of participants included. *)
Theorem join_then_leave_restores history sid r u n t t' :
  ¬ member sid r (run history) →
  rooms (run (history ++ [mkInput t sid (JoinRoom r u n);
                          mkInput t' sid (LeaveRoom r)]))
  = rooms (run history).
Proof.
  intros Hout. destruct (hub_ok_run history) as (_ & Hall & _).
  change (history ++ [mkInput t sid (JoinRoom r u n); mkInput t' sid (LeaveRoom r)])
    with (history ++ [mkInput t sid (JoinRoom r u n)] ++ [mkInput t' sid (LeaveRoom r)]).
  rewrite app_assoc, !run_snoc. unfold dispatch. cbn [event socketId].
  set (h := run history) in *.
  unfold on_leave_room. rewrite rooms_join_eq, get_set_eq. cbv beta iota zeta.
  rewrite get_set_eq. cbv beta iota zeta.
  unfold member, connections, room_users in *.
  rewrite delete_set.
  destruct (JSMap.get r (rooms h)) as [users|] eqn:Hr; simpl in *.
  - apply not_elem_of_keys in Hout. rewrite delete_absent by done.
    destruct (entry_ok_get h r users Hall Hr) as [Hne _].
    destruct (Nat.eqb (JSMap.size users) 0) eqn:Hsz; simpl.
    + by apply size_0 in Hsz.
    + rewrite set_set. by apply set_same.
  - rewrite !delete_set. by apply delete_absent.
Qed.

Lemma join_then_leave_restores_witness :
  let history := [mkInput 0 "A" (JoinRoom "r1" "u1" "Alice")] in
  ¬ member "B" "r1" (run history)
  ∧ rooms (run (history ++ [mkInput 1 "B" (JoinRoom "r1" "u2" "Bob");
                            mkInput 2 "B" (LeaveRoom "r1")]))
    = rooms (run history).
Proof.
  cbv zeta.
  assert (Hout : ¬ member "B" "r1"
                     (run [mkInput 0 "A" (JoinRoom "r1" "u1" "Alice")])).
  { unfold member. change ("B" ∉ ["A"]).
    intros [H|H]%elem_of_cons; [discriminate H | by apply elem_of_nil in H]. }
  split; [exact Hout|].
  exact (join_then_leave_restores _ "B" "r1" "u2" "Bob" 1 2 Hout).
Defined.

Lemma adapter_join_join sid r (a : gmap string (gset string)) :
  SocketIO.join sid r (SocketIO.join sid r a) = SocketIO.join sid r a.
Proof.
  unfold SocketIO.join, SocketIO.members.
  rewrite lookup_insert_eq, insert_insert_eq. simpl. f_equal. set_solver.
Qed.

(** X9. A second join overwrites the first: a join-room followed at once by
    another join-room of the same connection for the same room leaves the
    hub as the second one alone would, so the later user id and user name
    win and the connection keeps one entry. *)
Theorem rejoin_overwrites history sid r u n u' n' t t' :
  run (history ++ [mkInput t sid (JoinRoom r u n); mkInput t' sid (JoinRoom r u' n')])
  = run (history ++ [mkInput t' sid (JoinRoom r u' n')]).
Proof.
  change (history ++ [mkInput t sid (JoinRoom r u n); mkInput t' sid (JoinRoom r u' n')])
    with (history ++ [mkInput t sid (JoinRoom r u n)] ++ [mkInput t' sid (JoinRoom r u' n')]).
  rewrite app_assoc, !run_snoc. unfold dispatch. cbn [event socketId].
  set (h := run history).
  assert (Hrooms : rooms (on_join_room sid r u' n' (on_join_room sid r u n h).1).1
                   = rooms (on_join_room sid r u' n' h).1).
  { rewrite !rooms_join_eq. unfold room_users at 1.
    rewrite rooms_join_eq, get_set_eq. simpl. by rewrite !set_set. }
  assert (Hadapter : adapter (on_join_room sid r u' n' (on_join_room sid r u n h).1).1
                     = adapter (on_join_room sid r u' n' h).1)
    by apply adapter_join_join.
  destruct (on_join_room sid r u' n' (on_join_room sid r u n h).1).1,
           (on_join_room sid r u' n' h).1. simpl in *. by subst.
Qed.

(** X10. A relay does not ask whether the sender is in the room: when the
    events come from connected sockets and room ids are kept apart from
    connection ids, an editing event from a connection that is not
    registered in the room it names is broadcast, as the event the wire
    vocabulary gives for it, to every connection that is registered
    there. *)
Theorem relay_from_outsider history i r ev :
  relayed i = Some (r, ev) →
  ¬ member (socketId i) r (run history) →
  from_connected (history ++ [i]) = true →
  rooms_apart (history ++ [i]) = true →
  emitted history i =
    [mkEmission (ToRoom r (socketId i))
       (list_to_set (connections r (run history))) ev].
Proof.
  intros Hr Hout Hfc Hap%ServerSpec.rooms_apart_from.
  pose proof (ServerSpec.recipients_exact _ history i Hfc Hap) as Hex.
  assert (Hh : run (history ++ [i]) = run history).
  { rewrite run_snoc. unfold dispatch, relayed in *. by destruct (event i). }
  rewrite Hh in Hex.
  assert (Hall : list_to_set (connections r (run history)) ∖ {[socketId i]}
                 = (list_to_set (connections r (run history)) : gset string)).
  { apply set_eq. intros c. rewrite elem_of_difference, elem_of_list_to_set.
    rewrite elem_of_singleton. split; [tauto|]. intros Hc. split; [done|].
    by intros ->. }
  unfold emitted, dispatch, relayed in *.
  destruct (event i); simplify_eq/=;
    apply Forall_cons in Hex as [Hex _];
    specialize (Hex _ _ eq_refl); simpl in Hex;
    unfold to_room_emit; by rewrite Hex, Hall.
Qed.

Lemma relay_from_outsider_witness :
  let history := [mkInput 0 "A" Connect;
                  mkInput 0 "A" (JoinRoom "r1" "u1" "Alice");
                  mkInput 1 "B" Connect;
                  mkInput 1 "B" (JoinRoom "r1" "u2" "Bob");
                  mkInput 2 "Z" Connect] in
  let i := mkInput 3 "Z" (CodeChange "r1" "x=1" "python" "u9") in
  (relayed i = Some ("r1", CodeUpdate "x=1" "python" "u9" 3)
   ∧ ¬ member (socketId i) "r1" (run history)
   ∧ from_connected (history ++ [i]) = true
   ∧ rooms_apart (history ++ [i]) = true)
  ∧ emitted history i =
      [mkEmission (ToRoom "r1" "Z")
         (list_to_set (connections "r1" (run history)))
         (CodeUpdate "x=1" "python" "u9" 3)].
Proof.
  cbv zeta.
  assert (Hout : ¬ member "Z" "r1"
                     (run [mkInput 0 "A" Connect;
                           mkInput 0 "A" (JoinRoom "r1" "u1" "Alice");
                           mkInput 1 "B" Connect;
                           mkInput 1 "B" (JoinRoom "r1" "u2" "Bob");
                           mkInput 2 "Z" Connect])).
  { unfold member. change ("Z" ∉ ["A"; "B"]).
    intros [H|[H|H]%elem_of_cons]%elem_of_cons;
      [discriminate H | discriminate H | by apply elem_of_nil in H]. }
  split; [split_and!; [reflexivity | exact Hout | reflexivity..]|].
  exact (relay_from_outsider _
           (mkInput 3 "Z" (CodeChange "r1" "x=1" "python" "u9")) "r1" _
           eq_refl Hout eq_refl eq_refl).
Defined.

End ServerMore.

(** ** More about the editor panel: its timeouts and its flag over time *)

Module EditorMore.
Import Editor EditorLifecycle.

Implicit Types (p : Props) (st : Panel) (v : string).

(** A remote update leaves the timeouts and what was sent alone. *)
Lemma handleCodeUpdate_timers p rc uid st :
  let st' := handleCodeUpdate p rc uid st in
  timers st' = timers st
  ∧ debounceTimerRef st' = debounceTimerRef st
  ∧ nextTimerId st' = nextTimerId st
  ∧ sent st' = sent st.
Proof.
  unfold handleCodeUpdate. case_bool_decide; [done|].
  destruct st as [c calls flag ref [[val [pos|]]|] tms next clock out]; done.
Qed.

Lemma pending_ok_advance lo t st : pending_ok lo st → pending_ok lo (advance t st).
Proof.
  intros [Hlo Hts]. split; [done|]. unfold advance. simpl.
  destruct Hts as [->|(tm & -> & Href & Htm)]; [by left|]. simpl.
  destruct (Nat.leb (deadline tm) t); simpl; [by left|].
  right. by exists tm.
Qed.

Lemma pending_ok_typed lo v st : pending_ok lo st → pending_ok lo (typed v st).
Proof. unfold typed. by destruct (editorRef st). Qed.

Lemma pending_ok_handleCodeChange lo p v st :
  pending_ok lo st → pending_ok lo (handleCodeChange p v st).
Proof.
  intros [Hlo Hts]. unfold handleCodeChange.
  destruct (isRemoteChangeRef st); [done|].
  destruct (can_emit p); [|done].
  destruct st as [c calls flag ref ed tms next clock out]. simpl in *.
  destruct Hts as [->|(tm & -> & -> & Hid)]; [destruct ref|];
    simpl; rewrite ?Nat.eqb_refl; simpl;
    (split; [simpl; lia|]); right; eexists; simpl;
    (split_and!; [reflexivity..|simpl; lia]).
Qed.

Lemma pending_ok_handleCodeUpdate lo p rc uid st :
  pending_ok lo st → pending_ok lo (handleCodeUpdate p rc uid st).
Proof.
  destruct (handleCodeUpdate_timers p rc uid st) as (Ht & Hr & Hn & _).
  unfold pending_ok. by rewrite Ht, Hr, Hn.
Qed.

Lemma pending_ok_session lo es : ∀ st, pending_ok lo st → pending_ok lo (session es st).
Proof.
  induction es as [|[t e] es IH]; intros st Hok; [done|].
  apply IH. unfold happen. simpl.
  pose proof (pending_ok_advance lo t st Hok) as H1.
  destruct e as [p v|p rc uid|ed].
  - by apply pending_ok_handleCodeChange, pending_ok_typed.
  - by apply pending_ok_handleCodeUpdate.
  - done.
Qed.

(** X11. At most one emission is ever pending: from a panel with no timeout
    set, whatever local edits, remote updates and mounts follow, under
    whatever props, no more than one timeout is pending afterwards, and it
    is the one [debounceTimerRef] holds. *)
Theorem at_most_one_pending st0 es :
  timers st0 = [] →
  let st := session es st0 in
  length (timers st) ≤ 1
  ∧ Forall (λ tm, debounceTimerRef st = Some (timerId tm)) (timers st).
Proof.
  intros H0 st.
  assert (Hok : pending_ok (nextTimerId st0) st).
  { apply pending_ok_session. split; [done|by left]. }
  destruct Hok as [_ [->|(tm & -> & Href & _)]]; simpl.
  - split; [lia|constructor].
  - split; [lia|]. by repeat constructor.
Qed.

Lemma at_most_one_pending_witness :
  let p := mkProps (Some (mkSocketHandle true)) (Some "r1") (Some "u1") "python" in
  let es := [(0, LocalEdit p "a"); (100, CodeUpdateArrives p "b" (Some "u2"));
             (150, LocalEdit p "bc"); (200, LocalEdit p "bcd")] in
  timers (panel0 "") = []
  ∧ length (timers (session es (panel0 ""))) ≤ 1.
Proof.
  cbv zeta. split; [reflexivity|].
  apply (at_most_one_pending (panel0 "")). reflexivity.
Defined.

(** X12. Unmounting silences the panel: from a panel with no timeout set,
    and timeout handles that are positive as a browser's are, after
    whatever happened the cleanup leaves no timeout pending, so nothing is
    emitted after the panel is gone. *)
Theorem unmount_cancels_pending st0 es :
  timers st0 = [] → 0 < nextTimerId st0 →
  let st := session es st0 in
  timers (unmount st) = []
  ∧ ∀ T, sent (advance T (unmount st)) = sent st.
Proof.
  intros H0 Hpos st.
  assert (Hok : pending_ok (nextTimerId st0) st).
  { apply pending_ok_session. split; [done|by left]. }
  assert (Hnone : timers (unmount st) = [] ∧ sent (unmount st) = sent st).
  { unfold unmount. destruct Hok as [_ [Hnil|(tm & Htm & Href & Hid)]].
    - destruct (debounceTimerRef st) as [id|]; [|done].
      destruct (Nat.eqb id 0); [done|]. simpl. by rewrite Hnil.
    - rewrite Href. destruct (Nat.eqb_spec (timerId tm) 0) as [Hz|_]; [lia|].
      simpl. rewrite Htm. simpl. by rewrite Nat.eqb_refl. }
  destruct Hnone as [Hts Hsent]. split; [done|].
  intros T. unfold advance. simpl. rewrite Hts, Hsent. simpl. apply app_nil_r.
Qed.

Lemma unmount_cancels_pending_witness :
  let p := mkProps (Some (mkSocketHandle true)) (Some "r1") (Some "u1") "python" in
  let st0 := mkPanel "" [] false None None [] 1 0 [] in
  let es := [(0, LocalEdit p "a"); (100, LocalEdit p "ab")] in
  (timers st0 = [] ∧ 0 < nextTimerId st0)
  ∧ timers (unmount (session es st0)) = []
  ∧ sent (advance 1000 (unmount (session es st0))) = [].
Proof.
  cbv zeta. split; [split; [reflexivity | simpl; lia]|].
  destruct (unmount_cancels_pending (mkPanel "" [] false None None [] 1 0 [])
              [(0, LocalEdit
                     (mkProps (Some (mkSocketHandle true)) (Some "r1") (Some "u1")
                        "python") "a");
               (100, LocalEdit
                       (mkProps (Some (mkSocketHandle true)) (Some "r1") (Some "u1")
                          "python") "ab")]
              eq_refl (le_n 1)) as [Hts Hsent].
  split; [exact Hts | exact (Hsent 1000)].
Defined.

(** X13. An edit made while the socket is down does not reschedule: when an
    emission is pending for an earlier edit and a later edit, still inside
    the window, finds the socket disconnected or the ids missing, the local
    code is the later value, yet the pending timeout stays and emits the
    earlier value when it is due; the later value is not emitted. *)
Theorem edit_while_down_keeps_stale_timer p p' st t v sent0 t' v' :
  pending_edit p t v sent0 st → can_emit p' = false →
  t ≤ t' → t' < t + debounce_ms →
  let st' := edit_at p' st (t', v') in
  code st' = v'
  ∧ (∀ T, T < t + debounce_ms → sent (advance T st') = sent0)
  ∧ (∀ T, t + debounce_ms ≤ T →
       sent (advance T st') = sent0 ++ [code_change_of p v]
       ∧ timers (advance T st') = []).
Proof.
  intros (id & Hnow & Hts & Href & Hsent & Hf) Hp Hle Hlt.
  assert (Hdue : Nat.leb (t + debounce_ms) t' = false) by (apply Nat.leb_gt; lia).
  destruct st as [c calls flag ref [ed|] tms next clock out]; simpl in *; subst;
    unfold edit_at, handleCodeChange, advance, typed; simpl; rewrite Hp, Hdue;
    simpl; (split_and!; [done| |]); intros T HT.
  1,3: replace (Nat.leb (t + debounce_ms) T) with false
         by (symmetry; apply Nat.leb_gt; lia); simpl; by rewrite !app_nil_r.
  1,2: replace (Nat.leb (t + debounce_ms) T) with true
         by (symmetry; apply Nat.leb_le; lia); simpl; by rewrite !app_nil_r.
Qed.

Lemma edit_while_down_keeps_stale_timer_witness :
  let p := mkProps (Some (mkSocketHandle true)) (Some "r1") (Some "u1") "python" in
  let p' := mkProps (Some (mkSocketHandle false)) (Some "r1") (Some "u1") "python" in
  let st := edit_at p (panel0 "") (0, "a") in
  (pending_edit p 0 "a" [] st ∧ can_emit p' = false)
  ∧ code (edit_at p' st (100, "ab")) = "ab"
  ∧ sent (advance 300 (edit_at p' st (100, "ab"))) = [code_change_of p "a"].
Proof.
  cbv zeta.
  assert (Hpend : pending_edit
            (mkProps (Some (mkSocketHandle true)) (Some "r1") (Some "u1") "python")
            0 "a" []
            (edit_at (mkProps (Some (mkSocketHandle true)) (Some "r1") (Some "u1")
                        "python") (panel0 "") (0, "a"))).
  { exists 0. split_and!; reflexivity. }
  split; [split; [exact Hpend | reflexivity]|].
  destruct (edit_while_down_keeps_stale_timer _
              (mkProps (Some (mkSocketHandle false)) (Some "r1") (Some "u1") "python")
              _ 0 "a" [] 100 "ab" Hpend eq_refl)
    as (Hc & _ & Hafter); [lia | unfold debounce_ms; lia |].
  split; [exact Hc|]. apply Hafter. unfold debounce_ms. lia.
Defined.

(** X14. A remote update that arrives before the editor is mounted leaves
    the flag set, mounting does not clear it, and the next change
    notification is taken for the echo: that edit is not handed to
    onCodeChange and schedules no emission, whatever the connection. *)
Theorem update_before_mount_swallows_next_edit p rc uid editor v st :
  editorRef st = None → uid ≠ userId p →
  let st1 := handleEditorDidMount editor (handleCodeUpdate p rc uid st) in
  let st2 := handleCodeChange p v st1 in
  isRemoteChangeRef st1 = true
  ∧ code st2 = rc
  ∧ onCodeChangeCalls st2 = onCodeChangeCalls st ++ [rc]
  ∧ timers st2 = timers st
  ∧ sent st2 = sent st
  ∧ isRemoteChangeRef st2 = false.
Proof.
  intros Hed Hne.
  unfold handleCodeUpdate, handleEditorDidMount, handleCodeChange.
  rewrite bool_decide_eq_false_2 by done.
  destruct st as [c calls flag ref ed tms next clock out]. simpl in *. by subst.
Qed.

Lemma update_before_mount_swallows_next_edit_witness :
  let p := mkProps (Some (mkSocketHandle true)) (Some "r1") (Some "u1") "python" in
  let st1 := handleEditorDidMount (mkMonaco "b" None)
               (handleCodeUpdate p "b" (Some "u2") (panel0 "")) in
  (editorRef (panel0 "") = None ∧ Some "u2" ≠ userId p)
  ∧ code (handleCodeChange p "bc" st1) = "b"
  ∧ timers (handleCodeChange p "bc" st1) = [].
Proof.
  cbv zeta. assert (Hne : Some "u2" ≠ Some "u1") by discriminate.
  split; [split; [reflexivity | exact Hne]|].
  destruct (update_before_mount_swallows_next_edit
              (mkProps (Some (mkSocketHandle true)) (Some "r1") (Some "u1") "python")
              "b" (Some "u2") (mkMonaco "b" None) "bc" (panel0 "") eq_refl Hne)
    as (_ & Hc & _ & Ht & _).
  split; [exact Hc | exact Ht].
Defined.

(** X15. A remote update does not cancel a pending local emission: when an
    emission is pending for a local edit and an update from another user
    replaces the code, the timeout still fires and emits the local value
    that was replaced. *)
Theorem remote_update_keeps_pending_emission p p' st t v sent0 rc uid :
  pending_edit p t v sent0 st → uid ≠ userId p' →
  let st' := handleCodeUpdate p' rc uid st in
  code st' = rc
  ∧ ∀ T, t + debounce_ms ≤ T →
      sent (advance T st') = sent0 ++ [code_change_of p v].
Proof.
  intros (id & Hnow & Hts & Href & Hsent & Hf) Hne st'. split.
  - unfold st', handleCodeUpdate. rewrite bool_decide_eq_false_2 by done.
    destruct st as [c calls flag ref [[val [pos|]]|] tms next clock out]; simpl in *;
      subst; done.
  - intros T HT. unfold advance. simpl.
    destruct (handleCodeUpdate_timers p' rc uid st) as (Ht & _ & _ & Hs).
    fold st' in Ht, Hs. rewrite Ht, Hs, Hts, Hsent. simpl.
    replace (Nat.leb (t + debounce_ms) T) with true
      by (symmetry; apply Nat.leb_le; lia).
    done.
Qed.

Lemma remote_update_keeps_pending_emission_witness :
  let p := mkProps (Some (mkSocketHandle true)) (Some "r1") (Some "u1") "python" in
  let st := edit_at p (panel0 "") (0, "a") in
  (pending_edit p 0 "a" [] st ∧ Some "u2" ≠ userId p)
  ∧ code (handleCodeUpdate p "z" (Some "u2") st) = "z"
  ∧ sent (advance 300 (handleCodeUpdate p "z" (Some "u2") st)) = [code_change_of p "a"].
Proof.
  cbv zeta. assert (Hne : Some "u2" ≠ Some "u1") by discriminate.
  assert (Hpend : pending_edit
            (mkProps (Some (mkSocketHandle true)) (Some "r1") (Some "u1") "python")
            0 "a" []
            (edit_at (mkProps (Some (mkSocketHandle true)) (Some "r1") (Some "u1")
                        "python") (panel0 "") (0, "a"))).
  { exists 0. split_and!; reflexivity. }
  split; [split; [exact Hpend | exact Hne]|].
  destruct (remote_update_keeps_pending_emission _
              (mkProps (Some (mkSocketHandle true)) (Some "r1") (Some "u1") "python")
              _ 0 "a" [] "z" (Some "u2") Hpend Hne) as [Hc Hafter].
  split; [exact Hc|]. apply Hafter. unfold debounce_ms. lia.
Defined.

(** X16. Language updates never echo: over any run of language-update
    events, onLanguageChange is called for exactly the updates that carry
    another user's id, in their order, and no language-change is emitted. *)
Theorem language_updates_never_echo p updates ls :
  let ls' := language_updates p updates ls in
  sentLanguage ls' = sentLanguage ls
  ∧ onLanguageChangeCalls ls' =
      onLanguageChangeCalls ls
      ++ (List.filter (λ u, negb (bool_decide (u.2 = userId p))) updates).*1.
Proof.
  revert ls. induction updates as [|[lang uid] updates IH]; intros ls; simpl.
  - by rewrite app_nil_r.
  - destruct (IH (handleLanguageUpdate p lang uid ls)) as [Hs Hc].
    unfold language_updates in *. simpl. rewrite Hs, Hc.
    unfold handleLanguageUpdate. destruct (bool_decide (uid = userId p)); simpl.
    + done.
    + by rewrite <- app_assoc.
Qed.

End EditorMore.

(** ** More about the socket module: sequences of calls *)

Module SocketClientMore.
Import SocketClient SocketClientOps.

Lemma perform_returns env c socket : ∃ socket', perform env c socket = Returns socket'.
Proof.
  destruct c; simpl; eauto.
  - unfold leaveRoom. destruct socket; simpl; eauto.
  - unfold emitCodeChange. destruct socket as [[u [|] l e]|]; simpl; eauto.
  - unfold emitCursorChange. destruct socket as [[u [|] l e]|]; simpl; eauto.
  - unfold emitLanguageChange. destruct socket as [[u [|] l e]|]; simpl; eauto.
Qed.

(** X17. No export of the socket module throws: whatever the calls and
    whatever the state they find, with or without a socket, connected or
    not, every call returns. *)
Theorem exports_never_throw env cs socket :
  ∃ socket', perform_all env cs socket = Returns socket'.
Proof.
  revert socket. induction cs as [|c cs IH]; intros socket; simpl; [eauto|].
  destruct (perform_returns env c socket) as [socket1 ->]. apply IH.
Qed.

Lemma or_else_nonempty a b s :
  or_else a b = Some s → (∀ s', b = Some s' → s' ≠ "") → s ≠ "".
Proof.
  unfold or_else. destruct a as [sa|]; [|by eauto].
  destruct (String.eqb_spec sa "") as [->|Hne]; [by eauto|].
  by intros [= <-] _.
Qed.

Lemma getSocket_as_created serverUrl env socket :
  as_created socket → as_created (Some (getSocket serverUrl env socket)).
Proof.
  destruct socket as [s|]; [done|]. intros _. simpl. split; [done|].
  destruct (or_else (or_else serverUrl env) (Some "http://localhost:3000"))
    as [u|] eqn:Hu; simpl; [|done].
  eapply or_else_nonempty; [exact Hu|]. by intros s' [= <-].
Qed.

Lemma perform_as_created env c socket socket' :
  as_created socket → perform env c socket = Returns socket' → as_created socket'.
Proof.
  intros Hok. destruct c; simpl.
  - intros [= <-]. by apply getSocket_as_created.
  - by intros [= <-].
  - unfold joinRoom. pose proof (getSocket_as_created None env socket Hok) as H.
    simpl. by intros [= <-].
  - unfold leaveRoom. destruct socket; simpl; by intros [= <-].
  - unfold emitCodeChange. destruct socket as [[u [|] l e]|]; simpl; by intros [= <-].
  - unfold emitCursorChange. destruct socket as [[u [|] l e]|]; simpl; by intros [= <-].
  - unfold emitLanguageChange. destruct socket as [[u [|] l e]|]; simpl; by intros [= <-].
  - destruct socket; simpl; by intros [= <-].
Qed.

Lemma perform_all_as_created env cs : ∀ socket socket',
  as_created socket → perform_all env cs socket = Returns socket' → as_created socket'.
Proof.
  induction cs as [|c cs IH]; intros socket socket' Hok; simpl.
  - by intros [= <-].
  - destruct (perform env c socket) as [socket1|] eqn:Hc; [|done].
    apply IH. by eapply perform_as_created.
Qed.

(** X18. The socket keeps the shape it was created with: starting with no
    socket, after any sequence of calls the module's socket, if there is
    one, has a url that is not empty and exactly the four listeners of
    getSocket, each registered once. *)
Theorem singleton_keeps_its_shape env cs :
  match perform_all env cs None with
  | Returns (Some s) => listeners s = own_listeners ∧ url s ≠ ""
  | _ => True
  end.
Proof.
  destruct (perform_all env cs None) as [[s|]|] eqn:Hrun; [|done..].
  by apply (perform_all_as_created env cs None (Some s)).
Qed.

(** X19. Once created, the socket is the one every call uses: any call but
    disconnectSocket on an existing socket returns with that socket still
    there, at the same url (a later serverUrl is ignored) and with the same
    listeners, and what was handed to emit before is still there, in order,
    at the front. *)
Theorem socket_survives_calls env c s :
  c ≠ CallDisconnectSocket →
  ∃ s', perform env c (Some s) = Returns (Some s')
        ∧ url s' = url s
        ∧ listeners s' = listeners s
        ∧ emitted s `prefix_of` emitted s'.
Proof.
  intros Hc. destruct s as [u up l e].
  destruct c; simpl; try done.
  - eexists. split_and!; [reflexivity..|done].
  - eexists. split_and!; [reflexivity..|]. by apply prefix_app_r.
  - eexists. split_and!; [reflexivity..|]. by apply prefix_app_r.
  - unfold emitCodeChange. simpl. destruct up; simpl;
      eexists; (split_and!; [reflexivity..|]); [by apply prefix_app_r|done].
  - unfold emitCursorChange. simpl. destruct up; simpl;
      eexists; (split_and!; [reflexivity..|]); [by apply prefix_app_r|done].
  - unfold emitLanguageChange. simpl. destruct up; simpl;
      eexists; (split_and!; [reflexivity..|]); [by apply prefix_app_r|done].
  - eexists. split_and!; [reflexivity..|done].
Qed.

Lemma socket_survives_calls_witness :
  let s := mkSocket "http://localhost:3000" true own_listeners
             [JoinRoomMsg "r1" "u1" "Alice"] in
  CallGetSocket (Some "http://elsewhere:4000") ≠ CallDisconnectSocket
  ∧ ∃ s', perform None (CallGetSocket (Some "http://elsewhere:4000")) (Some s)
          = Returns (Some s')
          ∧ url s' = url s
          ∧ listeners s' = listeners s
          ∧ emitted s `prefix_of` emitted s'.
Proof.
  cbv zeta.
  assert (Hne : CallGetSocket (Some "http://elsewhere:4000") ≠ CallDisconnectSocket)
    by discriminate.
  split; [exact Hne|].
  exact (socket_survives_calls None _ _ Hne).
Defined.

(** X21. isSocketConnected tells what the emit helpers will do: each of
    emitCodeChange, emitCursorChange and emitLanguageChange hands exactly its
    own message to the socket when isSocketConnected holds and nothing when
    it does not; after disconnectSocket it does not hold. *)
Theorem isSocketConnected_predicts_emit socket :
  (∀ r c l u, ∃ socket',
     emitCodeChange r c l u socket = Returns socket'
     ∧ outbox socket' =
         if isSocketConnected socket
         then outbox socket ++ [CodeChangeMsg r c l u] else outbox socket)
  ∧ (∀ r pos u n, ∃ socket',
       emitCursorChange r pos u n socket = Returns socket'
       ∧ outbox socket' =
           if isSocketConnected socket
           then outbox socket ++ [CursorChangeMsg r pos u n] else outbox socket)
  ∧ (∀ r l u, ∃ socket',
       emitLanguageChange r l u socket = Returns socket'
       ∧ outbox socket' =
           if isSocketConnected socket
           then outbox socket ++ [LanguageChangeMsg r l u] else outbox socket)
  ∧ isSocketConnected (disconnectSocket socket) = false.
Proof.
  unfold emitCodeChange, emitCursorChange, emitLanguageChange, isSocketConnected.
  destruct socket as [[u0 [|] l0 e0]|]; simpl; split_and!; intros; eauto.
Qed.

End SocketClientMore.

(** ** The chat token controller's answers *)

Module ChatControllerSpec.
Import ChatController.

(** X20. getStreamToken always answers, with 200 or with 500: it answers
    200 exactly when the request carries a user and a token could be created
    for the user's clerk id, and the body then holds that token with the
    user's clerk id, name and image; every failure is answered 500 with the
    one fixed message, which tells nothing of the error. *)
Theorem getStreamToken_answers (createToken : string → TokenResult) req :
  let res := getStreamToken createToken req in
  (status res = 200 ∨ status res = 500)
  ∧ (status res = 200 ↔
       ∃ u token, user req = Some u ∧ createToken (clerkId u) = Token token
                  ∧ body res = TokenBody token (clerkId u) (name u) (image u))
  ∧ (status res = 500 ↔ body res = MessageBody "Internal Server Error").
Proof.
  unfold getStreamToken. destruct (user req) as [u|] eqn:Hu; simpl.
  - destruct (createToken (clerkId u)) as [token|msg] eqn:Ht; simpl.
    + split_and!; [by left| |done]. split; [|done]. intros _.
      exists u, token. by rewrite Ht.
    + split_and!; [by right| |done]. split; [done|].
      intros (u' & token & [= <-] & Ht' & _). congruence.
  - split_and!; [by right| |done]. split; [done|].
    by intros (u' & token & ? & _).
Qed.

End ChatControllerSpec.
